(** * ticket-dispatcher: body extraction, HTML rendering and quote folding

    A shallow embedding of [extract_body.go] and [html_convert.go]:
    the MIME body selector [extractBodyAsMarkdown] with its decoding
    pipeline [readAndDecodePart], the HTML renderer [htmlToPlain] and the
    quote folder [hideQuotedPart].

    Go strings are byte sequences; they are modelled as [list byte].
    Functions of Go's standard library whose behaviour is fixed by a few
    lines (package [strings]) are written out; the ones that are whole
    libraries of their own (the HTML parser, MIME header and multipart
    parsing, transfer decoders, character-set conversion, Unicode case
    tables, the table of HTML entities) are the fields of the class
    [GoLib], so every theorem holds for whatever they compute. *)

From Stdlib Require Import List Bool Arith ZArith Lia.
From Stdlib Require Import Strings.Byte.
From Stdlib Require Strings.String Numbers.DecimalString.
Import ListNotations String.StringSyntax.
Delimit Scope string_scope with string.

Set Implicit Arguments.

(** ** Go strings *)

Definition gostring := list byte.

(** [str "abc"] is the Go string literal ["abc"]. *)
Definition str (s : String.string) : gostring := String.list_byte_of_string s.
Arguments str s%_string.

(** The Go string ["\n"]. *)
Definition nl : gostring := [x0a].

Definition beq (a b : byte) : bool := Byte.eqb a b.

(** [s == t] on Go strings. *)
Fixpoint streq (s t : gostring) : bool :=
  match s, t with
  | [], [] => true
  | a :: s', b :: t' => beq a b && streq s' t'
  | _, _ => false
  end.

Module GoStrings.

(** [strings.HasPrefix]. *)
Fixpoint HasPrefix (s prefix : gostring) : bool :=
  match prefix, s with
  | [], _ => true
  | p :: prefix', c :: s' => beq c p && HasPrefix s' prefix'
  | _ :: _, [] => false
  end.

(** [strings.HasSuffix]. *)
Definition HasSuffix (s suffix : gostring) : bool :=
  HasPrefix (rev s) (rev suffix).

(** [strings.Contains]. *)
Fixpoint Contains (s substr : gostring) : bool :=
  HasPrefix s substr ||
  match s with
  | [] => false
  | _ :: s' => Contains s' substr
  end.

(** [strings.Join]. *)
Fixpoint Join (elems : list gostring) (sep : gostring) : gostring :=
  match elems with
  | [] => []
  | [e] => e
  | e :: rest => e ++ sep ++ Join rest sep
  end.

(** [strings.Split] for a non-empty separator: the pieces between the
    non-overlapping occurrences of [sep], found left to right.  [skip]
    counts the bytes of an occurrence still to pass over and [cur] is the
    current piece, reversed. *)
Fixpoint SplitAux (sep : gostring) (skip : nat) (cur : gostring) (s : gostring)
  : list gostring :=
  match s with
  | [] => [rev cur]
  | c :: s' =>
      match skip with
      | S k => SplitAux sep k cur s'
      | O =>
          if HasPrefix s sep
          then rev cur :: SplitAux sep (length sep - 1) [] s'
          else SplitAux sep 0 (c :: cur) s'
      end
  end.

Definition Split (s sep : gostring) : list gostring := SplitAux sep 0 [] s.

(** [strings.ReplaceAll] for a non-empty [old]: every non-overlapping
    occurrence, left to right, is replaced. *)
Fixpoint ReplaceAllAux (old new : gostring) (skip : nat) (s : gostring) : gostring :=
  match s with
  | [] => []
  | c :: s' =>
      match skip with
      | S k => ReplaceAllAux old new k s'
      | O =>
          if HasPrefix s old
          then new ++ ReplaceAllAux old new (length old - 1) s'
          else c :: ReplaceAllAux old new 0 s'
      end
  end.

Definition ReplaceAll (s old new : gostring) : gostring := ReplaceAllAux old new 0 s.

(** [strings.TrimLeft] and [strings.TrimRight] for a cutset of ASCII
    characters: the bytes of the cutset are removed from that end. *)
Definition inCutset (cutset : gostring) (c : byte) : bool := existsb (beq c) cutset.

Fixpoint TrimLeft (s cutset : gostring) : gostring :=
  match s with
  | [] => []
  | c :: s' => if inCutset cutset c then TrimLeft s' cutset else s
  end.

Definition TrimRight (s cutset : gostring) : gostring :=
  rev (TrimLeft (rev s) cutset).

(** [strings.Repeat] panics on a negative count. *)
Definition Repeat (s : gostring) (count : Z) : option gostring :=
  if (count <? 0)%Z then None
  else Some (concat (repeat s (Z.to_nat count))).

(** *** [strings.TrimSpace]

    White space is Unicode's: the six ASCII characters, U+0085, U+00A0,
    U+1680, U+2000..U+200A, U+2028, U+2029, U+202F, U+205F and U+3000.
    A string is trimmed rune by rune; a rune is white space exactly when
    its bytes are the UTF-8 encoding of one of these, and an ill-formed
    byte decodes to U+FFFD, which is not. *)
Definition asciiSpace (c : byte) : bool :=
  match c with
  | x09 | x0a | x0b | x0c | x0d | x20 => true
  | _ => false
  end.

Definition byteIn (lo hi : N) (c : byte) : bool :=
  (lo <=? Byte.to_N c)%N && (Byte.to_N c <=? hi)%N.

(** U+0085 and U+00A0. *)
Definition space2 (c d : byte) : bool :=
  beq c xc2 && (beq d x85 || beq d xa0).

(** U+1680, U+2000..U+200A, U+2028, U+2029, U+202F, U+205F, U+3000. *)
Definition space3 (c d e : byte) : bool :=
  (beq c xe1 && beq d x9a && beq e x80) ||
  (beq c xe2 && beq d x80 &&
     (byteIn 0x80 0x8a e || beq e xa8 || beq e xa9 || beq e xaf)) ||
  (beq c xe2 && beq d x81 && beq e x9f) ||
  (beq c xe3 && beq d x80 && beq e x80).

Fixpoint TrimLeftSpace (s : gostring) : gostring :=
  match s with
  | [] => []
  | c :: s1 =>
      if asciiSpace c then TrimLeftSpace s1 else
      match s1 with
      | [] => s
      | d :: s2 =>
          if space2 c d then TrimLeftSpace s2 else
          match s2 with
          | [] => s
          | e :: s3 => if space3 c d e then TrimLeftSpace s3 else s
          end
      end
  end.

(** The same from the end, on the reversed string: the last rune is the
    one whose encoding ends the string. *)
Fixpoint trimSpaceRev (r : gostring) : gostring :=
  match r with
  | [] => []
  | c :: r1 =>
      if asciiSpace c then trimSpaceRev r1 else
      match r1 with
      | [] => r
      | d :: r2 =>
          if space2 d c then trimSpaceRev r2 else
          match r2 with
          | [] => r
          | e :: r3 => if space3 e d c then trimSpaceRev r3 else r
          end
      end
  end.

Definition TrimRightSpace (s : gostring) : gostring := rev (trimSpaceRev (rev s)).

Definition TrimSpace (s : gostring) : gostring := TrimRightSpace (TrimLeftSpace s).

(** A line: a string without a newline. *)
Definition noNL (l : gostring) : Prop := ~ In x0a l.

(** The bytes white space is made of: the ASCII ones and, of the
    encodings of the others, bytes from [0x80] on. *)
Definition wsByte (b : byte) : bool := asciiSpace b || (0x80 <=? Byte.to_N b)%N.

End GoStrings.

Import GoStrings.

(** ** Regular expressions

    The patterns of [hideQuotedPart] are matched with Go's [regexp]
    package.  They are written here as regular expressions over bytes and
    matched with derivatives. *)
Module Regexp.

Inductive re : Type :=
| Never
| Empty
| Class (p : byte -> bool)
| Cat (r1 r2 : re)
| Alt (r1 r2 : re)
| Star (r : re).

Fixpoint nullable (r : re) : bool :=
  match r with
  | Never => false
  | Empty => true
  | Class _ => false
  | Cat r1 r2 => nullable r1 && nullable r2
  | Alt r1 r2 => nullable r1 || nullable r2
  | Star _ => true
  end.

Fixpoint deriv (c : byte) (r : re) : re :=
  match r with
  | Never | Empty => Never
  | Class p => if p c then Empty else Never
  | Cat r1 r2 =>
      if nullable r1 then Alt (Cat (deriv c r1) r2) (deriv c r2)
      else Cat (deriv c r1) r2
  | Alt r1 r2 => Alt (deriv c r1) (deriv c r2)
  | Star r1 => Cat (deriv c r1) (Star r1)
  end.

(** Some prefix of [s] is in the language of [r]. *)
Fixpoint matchPrefix (r : re) (s : gostring) : bool :=
  nullable r ||
  match s with
  | [] => false
  | c :: s' => matchPrefix (deriv c r) s'
  end.

(** [s] itself is in the language of [r]. *)
Fixpoint matchAll (r : re) (s : gostring) : bool :=
  match s with
  | [] => nullable r
  | c :: s' => matchAll (deriv c r) s'
  end.

Definition Plus (r : re) : re := Cat r (Star r).
Definition Opt (r : re) : re := Alt Empty r.
Definition Lit (c : byte) : re := Class (beq c).

Fixpoint Seq (rs : list re) : re :=
  match rs with
  | [] => Empty
  | [r] => r
  | r :: rs' => Cat r (Seq rs')
  end.

Definition isUpper (c : byte) : bool := byteIn 0x41 0x5a c.
Definition isLower (c : byte) : bool := byteIn 0x61 0x7a c.

Definition shift (c : byte) (d : N) : byte :=
  match Byte.of_N d with
  | Some c' => c'
  | None => c
  end.

Definition asciiLower (c : byte) : byte :=
  if isUpper c then shift c (Byte.to_N c + 32) else c.

Definition asciiUpper (c : byte) : byte :=
  if isLower c then shift c (Byte.to_N c - 32) else c.

(** A literal character under the flag [(?i)]: it matches the runes of
    its case-folding orbit.  For an ASCII letter these are its two cases,
    and U+017F (LATIN SMALL LETTER LONG S) for [s], U+212A (KELVIN SIGN)
    for [k]. *)
Definition FoldLit (c : byte) : re :=
  let two := Class (fun b => beq b (asciiLower c) || beq b (asciiUpper c)) in
  if beq (asciiLower c) "s" then Alt two (Seq [Lit xc5; Lit xbf])
  else if beq (asciiLower c) "k" then Alt two (Seq [Lit xe2; Lit x84; Lit xaa])
  else two.

Definition FoldStr (s : gostring) : re := Seq (map FoldLit s).

(** [.] without the flag [s]: any rune but the newline.  Every [.+] of
    the patterns below is followed by an ASCII character or ends the
    pattern, and an ASCII byte is never inside the encoding of another
    rune (an ill-formed byte is a rune of its own, U+FFFD), so a run of
    runes is here a run of bytes. *)
Definition Dot : re := Class (fun b => negb (beq b x0a)).

(** [\s] is [[\t\n\f\r ]]. *)
Definition Space : re :=
  Class (fun b => beq b x09 || beq b x0a || beq b x0c || beq b x0d || beq b x20).

(** A compiled pattern.  [AtStart r] is [^r]: a match begins the text and
    ends anywhere.  [Line r] is [(?m)^r$]: a match begins a line and ends
    a line; as [r] below ends in [\s*], which would pass over newlines,
    there is one exactly when some line is matched by [r] as a whole. *)
Inductive Regexp : Type :=
| AtStart (r : re)
| Line (r : re).

Definition MatchString (p : Regexp) (s : gostring) : bool :=
  match p with
  | AtStart r => matchPrefix r s
  | Line r => existsb (matchAll r) (Split s nl)
  end.

End Regexp.

(** ** The quote folder: [hideQuotedPart] *)
Module QuoteFolder.
Import Regexp.

Definition pats : list Regexp :=
  [ (* (?i)^On .+ wrote: *)
    AtStart (Seq [FoldStr (str "On "); Plus Dot; FoldStr (str " wrote:")]);
    (* (?i)^\**From:\s*.+@.+ *)
    AtStart (Seq [Star (Lit "*"); FoldStr (str "From:"); Star Space;
                  Plus Dot; Lit "@"; Plus Dot]);
    (* (?i)^Sent:\s* *)
    AtStart (Seq [FoldStr (str "Sent:"); Star Space]);
    (* (?i)^\**To:\s* *)
    AtStart (Seq [Star (Lit "*"); FoldStr (str "To:"); Star Space]);
    (* (?i)^\**Subject:\s* *)
    AtStart (Seq [Star (Lit "*"); FoldStr (str "Subject:"); Star Space]);
    (* (?i)^-+ ?Original Message ?-+ *)
    AtStart (Seq [Plus (Lit "-"); Opt (Lit " "); FoldStr (str "Original Message");
                  Opt (Lit " "); Plus (Lit "-")]);
    (* (?i)^Begin forwarded message: *)
    AtStart (FoldStr (str "Begin forwarded message:"));
    (* (?m)^--\s*$ *)
    Line (Seq [Lit "-"; Lit "-"; Star Space]) ].

(** The loop of [isQuoteBlock] from line [j] on, [ls] being [lines[j:]]:
    it runs while [j < n && count < 3]. *)
Fixpoint quoteCount (ls : list gostring) (count : nat) : nat :=
  match ls with
  | [] => count
  | l :: rest =>
      if count <? 3 then
        if HasPrefix (TrimSpace l) (str ">") then quoteCount rest (S count)
        else if streq (TrimSpace l) [] then quoteCount rest count
        else count
      else count
  end.

Definition isQuoteBlock (lines : list gostring) (i : nat) : bool :=
  if length lines <=? i then false
  else 3 <=? quoteCount (skipn i lines) 0.

(** The loop that finds the split index, at line [i] with [rest] being
    [lines[i:]].  [None] is the value [-1] of [split]. *)
Fixpoint findSplitFrom (lines : list gostring) (i : nat) (rest : list gostring)
  : option nat :=
  match rest with
  | [] => None
  | ln :: rest' =>
      let trim := TrimSpace ln in
      if streq trim [] then findSplitFrom lines (S i) rest'
      else if isQuoteBlock lines i then Some i
      else if existsb (fun re => MatchString re trim) pats then Some i
      else findSplitFrom lines (S i) rest'
  end.

Definition findSplit (lines : list gostring) : option nat :=
  findSplitFrom lines 0 lines.

Definition detailsOf (quoted : gostring) : gostring :=
  str "<details>" ++ nl ++ str "<summary>Show quoted email</summary>" ++ nl ++ nl ++
  TrimRight quoted nl ++ nl ++ nl ++ str "</details>".

(** What [hideQuotedPart] returns once [split] is known. *)
Definition foldAt (lines : list gostring) (split : nat) (removeQuotes : bool)
  : gostring :=
  let visible := TrimRight (Join (firstn split lines) nl) nl in
  let quoted := TrimLeft (Join (skipn split lines) nl) nl in
  let details := detailsOf quoted in
  if streq (TrimSpace visible) [] then details
  else if removeQuotes then visible ++ nl
  else visible ++ nl ++ nl ++ details.

Definition hideQuotedPart (md : gostring) (removeQuotes : bool) : gostring :=
  if streq (TrimSpace md) [] then md
  else
    let lines := Split md nl in
    match findSplit lines with
    | None => md
    | Some split => foldAt lines split removeQuotes
    end.

(** The split index [hideQuotedPart] computes, if it gets that far and
    finds one. *)
Definition splitPoint (md : gostring) : option nat :=
  if streq (TrimSpace md) [] then None else findSplit (Split md nl).

(** Line [k] exists and its trimmed form starts with [>]. *)
Definition quotedLine (lines : list gostring) (k : nat) : bool :=
  match nth_error lines k with
  | Some l => HasPrefix (TrimSpace l) (str ">")
  | None => false
  end.

(** Line [i] matches a split rule: it is not blank and it starts a block
    of quoted lines or one of the patterns matches it. *)
Definition splitRule (lines : list gostring) (i : nat) : bool :=
  match nth_error lines i with
  | Some l =>
      negb (streq (TrimSpace l) []) &&
      (isQuoteBlock lines i ||
       existsb (fun re => MatchString re (TrimSpace l)) pats)
  | None => false
  end.

End QuoteFolder.

(** ** Results of Go calls *)

(** An [error] value, made by [errors.New] or [fmt.Errorf] or returned by
    a library; it carries its message. *)
Inductive error : Type := errorsNew (msg : gostring).

(** A call returns a value, returns an error, or panics. *)
Inductive result (A : Type) : Type :=
| Ok (a : A)
| Err (e : error)
| Panic (msg : gostring).

Arguments Ok {A} a.
Arguments Err {A} e.
Arguments Panic {A} msg.

Definition bind {A B : Type} (r : result A) (k : A -> result B) : result B :=
  match r with
  | Ok a => k a
  | Err e => Err e
  | Panic m => Panic m
  end.

Notation "x <- r ;; k" := (bind r (fun x => k))
  (at level 100, r at next level, right associativity).

(** ** The parsed document: [golang.org/x/net/html.Node] *)

Inductive NodeType : Type :=
| ErrorNode | TextNode | DocumentNode | ElementNode | CommentNode | DoctypeNode | RawNode.

Record Attribute : Type := { Namespace : gostring; Key : gostring; Val : gostring }.

#[local] Unset Elimination Schemes.
(** A node with its [Type], [Data], [Attr] and its children from
    [FirstChild] along [NextSibling].  The [Parent] link is not stored: a
    traversal carries what it asks of the ancestors. *)
Inductive Node : Type :=
| MkNode (ty : NodeType) (data : gostring) (attr : list Attribute) (children : list Node).
#[local] Set Elimination Schemes.

(** A reader with the bytes it delivers and the error, if any, that ends
    them in place of [io.EOF]. *)
Record Reader : Type := { rdata : gostring; rerr : option error }.

(** [textproto.MIMEHeader]: canonical keys with their values. *)
Definition Header := list (gostring * list gostring).

(** A part of a multipart body: [multipart.Part]. *)
Record Part : Type := { PHeader : Header; PBody : Reader }.

(** ** The libraries behind the code

    What the program takes from libraries that cannot be written out
    here.  Nothing is assumed of these functions. *)
Class GoLib : Type := {
  (** [strings.Map(unicode.ToLower, s)], which [strings.ToLower] calls
      for a string with a byte outside ASCII *)
  unicodeToLower : gostring -> gostring;
  (** [html.UnescapeString] on a string that contains [&] *)
  unescapeEntities : gostring -> gostring;
  (** [html.Parse] of [golang.org/x/net/html] *)
  Parse : gostring -> Node + error;
  (** [mime.ParseMediaType]: media type, parameters and error *)
  ParseMediaType : gostring -> gostring * list (gostring * gostring) * option error;
  (** [quotedprintable.NewReader] *)
  quotedprintableNewReader : Reader -> Reader;
  (** [base64.NewDecoder(base64.StdEncoding, r)] *)
  base64NewDecoder : Reader -> Reader;
  (** [charset.NewReaderLabel] of [golang.org/x/net/html/charset] *)
  charsetNewReaderLabel : gostring -> Reader -> Reader + error;
  (** the parts [multipart.NewReader(body, boundary)] delivers through
      [NextPart], and the error, if any, that ends them in place of
      [io.EOF] *)
  multipartParts : Reader -> gostring -> list Part * option error
}.

Section LibraryFunctions.
Context {lib : GoLib}.

Definition isASCII (c : byte) : bool := (Byte.to_N c <? 0x80)%N.

(** [strings.ToLower]: a string of ASCII bytes is lowered byte by byte. *)
Definition ToLower (s : gostring) : gostring :=
  if forallb isASCII s then map Regexp.asciiLower s else unicodeToLower s.

(** [html.UnescapeString]: a string without [&] is returned as it is. *)
Definition UnescapeString (s : gostring) : gostring :=
  if existsb (beq "&") s then unescapeEntities s else s.

(** [io.ReadAll]: the bytes read and the error that ended them, if any. *)
Definition ReadAll (r : Reader) : gostring * option error := (rdata r, rerr r).

(** [strings.NewReader]. *)
Definition NewReader (s : gostring) : Reader := {| rdata := s; rerr := None |}.

End LibraryFunctions.

(** A map keyed by strings, as a list of bindings: the value of the first
    binding of [k]. *)
Fixpoint lookup {A : Type} (k : gostring) (t : list (gostring * A)) : option A :=
  match t with
  | [] => None
  | (k', v) :: t' => if streq k k' then Some v else lookup k t'
  end.

(** ** The HTML renderer: [htmlToPlain] *)
Module Html.
Section WithLib.
Context {lib : GoLib}.

(** *** Runes

    [for _, r := range text] decodes UTF-8; a byte that begins no
    well-formed encoding is the rune U+FFFD of width 1, and
    [WriteRune] writes that rune as [EF BF BD]. *)
Definition runeError : gostring := [xef; xbf; xbd].

Definition cont (c : byte) : bool := byteIn 0x80 0xbf c.

(** The width of the encoding a first byte announces, 0 if it begins
    none. *)
Definition runeWidth (c : byte) : nat :=
  if byteIn 0x00 0x7f c then 1
  else if byteIn 0xc2 0xdf c then 2
  else if byteIn 0xe0 0xef c then 3
  else if byteIn 0xf0 0xf4 c then 4
  else 0.

(** The second bytes accepted after the first byte [c]. *)
Definition second (c d : byte) : bool :=
  if beq c xe0 then byteIn 0xa0 0xbf d
  else if beq c xed then byteIn 0x80 0x9f d
  else if beq c xf0 then byteIn 0x90 0xbf d
  else if beq c xf4 then byteIn 0x80 0x8f d
  else cont d.

(** The loop over a text node outside [<pre>]: what it writes, [space]
    telling whether white space is pending. *)
Fixpoint collapseSpace (space : bool) (text : gostring) : gostring :=
  match text with
  | [] => []
  | c :: s1 =>
      if beq c " " || beq c x0a || beq c x09 || beq c x0d then collapseSpace true s1
      else
        (if space then [x20] else []) ++
        let bad := runeError ++ collapseSpace false s1 in
        if runeWidth c =? 1 then c :: collapseSpace false s1 else
        match s1 with
        | [] => bad
        | d :: s2 =>
            if (runeWidth c =? 2) && second c d then c :: d :: collapseSpace false s2 else
            match s2 with
            | [] => bad
            | e :: s3 =>
                if (runeWidth c =? 3) && second c d && cont e
                then c :: d :: e :: collapseSpace false s3 else
                match s3 with
                | [] => bad
                | f :: s4 =>
                    if (runeWidth c =? 4) && second c d && cont e && cont f
                    then c :: d :: e :: f :: collapseSpace false s4
                    else bad
                end
            end
        end
  end.

(** *** Render state: the buffer and the two stacks the closure [walk]
    shares with all its calls. *)
Record RenderState : Type := {
  buf : gostring;
  listStack : list gostring;
  olCounters : list Z
}.

Definition WriteString (s : gostring) (st : RenderState) : RenderState :=
  {| buf := buf st ++ s; listStack := listStack st; olCounters := olCounters st |}.

Definition ensureTwoNewlines (st : RenderState) : RenderState :=
  if HasSuffix (buf st) (nl ++ nl) then st
  else if HasSuffix (buf st) nl then WriteString nl st
  else WriteString (nl ++ nl) st.

Definition isElement (ty : NodeType) : bool :=
  match ty with ElementNode => true | _ => false end.

Definition isText (ty : NodeType) : bool :=
  match ty with TextNode => true | _ => false end.

(** [collectText]: the unescaped text of the text nodes below [n]. *)
Fixpoint collectText (n : Node) : gostring :=
  match n with
  | MkNode ty data _ children =>
      if isText ty then UnescapeString data
      else concat (map collectText children)
  end.

(** [gatherInnerText]: the raw text of the text nodes below [n]. *)
Fixpoint gatherInnerText (n : Node) : gostring :=
  match n with
  | MkNode ty data _ children =>
      if isText ty then data
      else concat (map gatherInnerText children)
  end.

(** The node is a [<pre>] element: the test [parentIsPre] makes of each
    ancestor. *)
Definition isPreElement (ty : NodeType) (data : gostring) : bool :=
  isElement ty && streq (ToLower data) (str "pre").

(** The value of the first attribute whose lowered key is [href],
    trimmed; empty if there is none. *)
Fixpoint hrefOf (attr : list Attribute) : gostring :=
  match attr with
  | [] => []
  | a :: rest =>
      if streq (ToLower (Key a)) (str "href") then TrimSpace (Val a)
      else hrefOf rest
  end.

(** The loop over the attributes of [<img>]: the last [alt] and the last
    [src]. *)
Fixpoint altSrcOf (attr : list Attribute) (alt src : gostring) : gostring * gostring :=
  match attr with
  | [] => (alt, src)
  | a :: rest =>
      let k := ToLower (Key a) in
      if streq k (str "alt") then altSrcOf rest (Val a) src
      else if streq k (str "src") then altSrcOf rest alt (Val a)
      else altSrcOf rest alt src
  end.

(** [fmt.Sscanf(s, "%d", &level)] for a string of decimal digits; the
    operand is the digit of the tag [h1] to [h6].  [None] when there is no
    digit: [level] then keeps its value. *)
Fixpoint scanDigits (acc : option Z) (s : gostring) : option Z :=
  match s with
  | [] => acc
  | c :: s' =>
      if byteIn 0x30 0x39 c
      then scanDigits
             (Some (10 * match acc with Some a => a | None => 0 end
                    + Z.of_N (Byte.to_N c - 0x30))%Z) s'
      else acc
  end.

Definition headingLevel (tag : gostring) : Z :=
  if 1 <? length tag then
    match scanDigits None (skipn 1 tag) with
    | Some l => l
    | None => 1%Z
    end
  else 1%Z.

(** [int] is 64 bits wide. *)
Definition wrapInt (z : Z) : Z := ((z + 2 ^ 63) mod 2 ^ 64 - 2 ^ 63)%Z.

(** [fmt.Sprintf("%d", z)]. *)
Definition FormatInt (z : Z) : gostring :=
  str (DecimalString.NilZero.string_of_int (Z.to_int z)).

(** [strings.Repeat] lifted to results. *)
Definition RepeatOrPanic (s : gostring) (count : Z) : result gostring :=
  match Repeat s count with
  | Some r => Ok r
  | None => Panic (str "strings: negative Repeat count")
  end.

(** [listStack = listStack[:len(listStack)-1]]. *)
Definition popListStack (st : RenderState) : result RenderState :=
  match listStack st with
  | [] => Panic (str "slice bounds out of range [:-1]")
  | _ => Ok {| buf := buf st; listStack := removelast (listStack st);
               olCounters := olCounters st |}
  end.

(** [if len(olCounters) > 0 { olCounters = olCounters[:len(olCounters)-1] }]. *)
Definition popOlCounter (st : RenderState) : RenderState :=
  {| buf := buf st; listStack := listStack st;
     olCounters := removelast (olCounters st) |}.

Definition pushList (kind : gostring) (st : RenderState) : RenderState :=
  {| buf := buf st; listStack := listStack st ++ [kind];
     olCounters := olCounters st |}.

Definition pushOlCounter (c : Z) (st : RenderState) : RenderState :=
  {| buf := buf st; listStack := listStack st;
     olCounters := olCounters st ++ [c] |}.

(** The prefix of a list item and the counters after it: the top counter
    is used and incremented when the innermost list is ordered. *)
Definition liPrefix (st : RenderState) : gostring * list Z :=
  if (0 <? length (listStack st)) && streq (last (listStack st) []) (str "ol") then
    match olCounters st with
    | [] => (str "- ", olCounters st)
    | _ =>
        let c := last (olCounters st) 0%Z in
        (FormatInt c ++ str ". ", removelast (olCounters st) ++ [wrapInt (c + 1)])
    end
  else (str "- ", olCounters st).

(** [for c := n.FirstChild; c != nil; c = c.NextSibling { walk(c) }]. *)
Definition walkChildren (walk : Node -> RenderState -> result RenderState)
  : list Node -> RenderState -> result RenderState :=
  fix go (cs : list Node) (st : RenderState) : result RenderState :=
    match cs with
    | [] => Ok st
    | c :: cs' => st' <- walk c st ;; go cs' st'
    end.

(** The closure [walk].  [inPre] is [parentIsPre(n)]. *)
Fixpoint walk (inPre : bool) (n : Node) (st : RenderState) {struct n}
  : result RenderState :=
  match n with
  | MkNode ty data attr children =>
      let descend := walkChildren (walk (inPre || isPreElement ty data)) children in
      match ty with
      | TextNode =>
          let text := UnescapeString data in
          if inPre then Ok (WriteString text st)
          else Ok (WriteString (collapseSpace false text) st)
      | ElementNode =>
          let tag := ToLower data in
          if streq tag (str "br") then Ok (WriteString nl st)
          else if streq tag (str "p") || streq tag (str "div") then
            st1 <- descend (ensureTwoNewlines st) ;;
            Ok (ensureTwoNewlines st1)
          else if existsb (streq tag)
                    [str "h1"; str "h2"; str "h3"; str "h4"; str "h5"; str "h6"] then
            hashes <- RepeatOrPanic (str "#") (headingLevel tag) ;;
            st1 <- descend (WriteString (hashes ++ str " ") (ensureTwoNewlines st)) ;;
            Ok (ensureTwoNewlines st1)
          else if streq tag (str "strong") || streq tag (str "b") then
            st1 <- descend (WriteString (str " **") st) ;;
            Ok (WriteString (str "**") st1)
          else if streq tag (str "em") || streq tag (str "i") then
            st1 <- descend (WriteString (str " *") st) ;;
            Ok (WriteString (str "*") st1)
          else if streq tag (str "a") then
            let inner := concat (map collectText children) in
            let href := hrefOf attr in
            let plainText := TrimSpace inner in
            if streq href [] || streq href plainText
            then Ok (WriteString plainText (WriteString (str " ") st))
            else Ok (WriteString (str ")") (WriteString href (WriteString (str " (")
                       (WriteString plainText (WriteString (str " ") st)))))
          else if streq tag (str "ul") then
            st1 <- descend (pushList (str "ul") st) ;;
            st2 <- popListStack st1 ;;
            Ok (ensureTwoNewlines st2)
          else if streq tag (str "ol") then
            st1 <- descend (pushOlCounter 1 (pushList (str "ol") st)) ;;
            st2 <- popListStack (popOlCounter st1) ;;
            Ok (ensureTwoNewlines st2)
          else if streq tag (str "li") then
            let (prefix, counters) := liPrefix st in
            indent <- RepeatOrPanic (str "  ") (Z.of_nat (length (listStack st)) - 1) ;;
            st1 <- descend {| buf := buf st ++ indent ++ prefix;
                              listStack := listStack st;
                              olCounters := counters |} ;;
            Ok (WriteString nl st1)
          else if streq tag (str "pre") then
            let raw := gatherInnerText n in
            let st1 := WriteString raw (WriteString (str "```" ++ nl) (ensureTwoNewlines st)) in
            let st2 := if HasSuffix raw nl then st1 else WriteString nl st1 in
            Ok (ensureTwoNewlines (WriteString (str "```" ++ nl) st2))
          else if streq tag (str "code") then
            if inPre then descend st
            else
              st1 <- descend (WriteString (str " `") st) ;;
              Ok (WriteString (str "`") st1)
          else if streq tag (str "img") then
            let (alt, src) := altSrcOf attr [] [] in
            if negb (streq alt [])
            then Ok (WriteString (str " ![" ++ alt ++ str "](" ++ src ++ str ")") st)
            else Ok st
          else descend st
      | _ => descend st
      end
  end.

(** [normalizeBlankLines]: the loop runs while the string contains three
    newlines in a row.  Every pass shortens the string, so [length s]
    passes are enough. *)
Fixpoint normalizeLoop (passes : nat) (s : gostring) : gostring :=
  match passes with
  | O => s
  | S passes' =>
      if Contains s (nl ++ nl ++ nl)
      then normalizeLoop passes' (ReplaceAll s (nl ++ nl ++ nl) (nl ++ nl))
      else s
  end.

Definition normalizeBlankLines (s : gostring) : gostring :=
  normalizeLoop (length s) s.

Definition initialState : RenderState :=
  {| buf := []; listStack := []; olCounters := [] |}.

(** [htmlToPlain] from the parsed document on. *)
Definition renderDocument (doc : Node) : result gostring :=
  st <- walk false doc initialState ;;
  let out := TrimSpace (buf st) in
  Ok (normalizeBlankLines out).

Definition htmlToPlain (htmlSrc : gostring) : result gostring :=
  match Parse htmlSrc with
  | inr err => Err err
  | inl doc => renderDocument doc
  end.

End WithLib.
End Html.

(** Induction on a document, with the hypothesis for every child. *)
Fixpoint Node_ind (P : Node -> Prop)
  (step : forall ty data attr children,
      Forall P children -> P (MkNode ty data attr children))
  (n : Node) {struct n} : P n :=
  match n with
  | MkNode ty data attr children =>
      step ty data attr children
        ((fix all (cs : list Node) : Forall P cs :=
            match cs with
            | [] => Forall_nil P
            | c :: cs' => @Forall_cons _ P c cs' (@Node_ind P step c) (all cs')
            end) children)
  end.

(** What a walk may change of the two stacks: nothing of the list
    stack, and of the counters the top one only. *)
Definition frame (st st' : Html.RenderState) : Prop :=
  Html.listStack st' = Html.listStack st /\
  length (Html.olCounters st') = length (Html.olCounters st) /\
  removelast (Html.olCounters st') = removelast (Html.olCounters st).

(** ** The MIME body selector: [extractBodyAsMarkdown] *)
Module Mime.
Import Html.
Section WithLib.
Context {lib : GoLib}.

(** [mail.Message]. *)
Record Message : Type := { MHeader : Header; MBody : Reader }.

(** [Header.Get]: the first value of the key, or the empty string. *)
Definition Get (h : Header) (key : gostring) : gostring :=
  match lookup key h with
  | Some (v :: _) => v
  | _ => []
  end.

(** [params[key]] on a [map[string]string]. *)
Definition param (params : list (gostring * gostring)) (key : gostring) : gostring :=
  match lookup key params with
  | Some v => v
  | None => []
  end.

(** Step 1 of [readAndDecodePart]: the reader that undoes the
    Content-Transfer-Encoding. *)
Definition decodedReader (r : Reader) (cteHeader : gostring) : Reader :=
  let cte := ToLower (TrimSpace cteHeader) in
  if streq cte (str "quoted-printable") then quotedprintableNewReader r
  else if streq cte (str "base64") then base64NewDecoder r
  else r.

(** The label of step 3. *)
Definition charsetLabel (contentType : gostring) : gostring :=
  let '(_, params, _) := ParseMediaType contentType in
  ToLower (TrimSpace (param params (str "charset"))).

Definition readAndDecodePart (r : Reader) (contentType cteHeader : gostring)
  : result gostring :=
  let (rawBytes, err) := ReadAll (decodedReader r cteHeader) in
  match err with
  | Some e => Err e
  | None =>
      let label := charsetLabel contentType in
      if streq label [] || streq label (str "utf-8") || streq label (str "us-ascii")
      then Ok rawBytes
      else
        match charsetNewReaderLabel label (NewReader rawBytes) with
        | inr _ => Ok rawBytes
        | inl cr =>
            let (convBytes, err') := ReadAll cr in
            match err' with
            | Some _ => Ok rawBytes
            | None => Ok convBytes
            end
        end
  end.

(** The three things the loop asks of a part. *)
Definition isAttachment (part : Part) : bool :=
  HasPrefix (ToLower (Get (PHeader part) (str "Content-Disposition"))) (str "attachment").

Definition partType (part : Part) : gostring :=
  let '(ptype, _, _) := ParseMediaType (Get (PHeader part) (str "Content-Type")) in
  ptype.

Definition decodePart (part : Part) : result gostring :=
  readAndDecodePart (PBody part)
    (Get (PHeader part) (str "Content-Type"))
    (Get (PHeader part) (str "Content-Transfer-Encoding")).

(** The loop over [mr.NextPart()], with the parts still to come, the
    error [perr] that ends them in place of [io.EOF], and the variable
    [firstHTML]; and what follows the loop. *)
Fixpoint scanParts (parts : list Part) (perr : option error) (firstHTML : gostring)
  : result gostring :=
  match parts with
  | [] =>
      match perr with
      | Some e => Err e
      | None =>
          if negb (streq firstHTML []) then htmlToPlain firstHTML
          else Ok []
      end
  | part :: rest =>
      if isAttachment part then scanParts rest perr firstHTML
      else
        let ptype := partType part in
        if streq ptype (str "text/plain") then
          b <- decodePart part ;;
          Ok (TrimSpace b)
        else if streq ptype (str "text/html") then
          b <- decodePart part ;;
          scanParts rest perr b
        else Err (errorsNew (str "no text part found"))
  end.

Definition extractBodyAsMarkdown (msg : Message) : result gostring :=
  let ct := Get (MHeader msg) (str "Content-Type") in
  let cte := Get (MHeader msg) (str "Content-Transfer-Encoding") in
  let '(mediatype, params, err) := ParseMediaType ct in
  match err with
  | Some _ => Ok (TrimSpace (fst (ReadAll (MBody msg))))
  | None =>
      if HasPrefix mediatype (str "multipart/") then
        let boundary := param params (str "boundary") in
        if streq boundary [] then Err (errorsNew (str "multipart without boundary"))
        else
          let (parts, perr) := multipartParts (MBody msg) boundary in
          scanParts parts perr []
      else
        bodyBytes <- readAndDecodePart (MBody msg) ct cte ;;
        let '(ptype, _, _) := ParseMediaType ct in
        if streq ptype (str "text/html") then htmlToPlain bodyBytes
        else Ok (TrimSpace bodyBytes)
  end.

(** [msg] is a multipart message with a boundary whose reader delivers
    [parts] and then [perr]. *)
Definition multipartMessage (msg : Message) (parts : list Part) (perr : option error)
  : Prop :=
  exists mediatype params,
    ParseMediaType (Get (MHeader msg) (str "Content-Type")) = (mediatype, params, None) /\
    HasPrefix mediatype (str "multipart/") = true /\
    streq (param params (str "boundary")) [] = false /\
    multipartParts (MBody msg) (param params (str "boundary")) = (parts, perr).

(** A part the scan passes: an attachment, or a [text/html] part that can
    be decoded. *)
Definition passed (part : Part) : Prop :=
  isAttachment part = true \/
  (partType part = str "text/html" /\ exists b, decodePart part = Ok b).

End WithLib.
End Mime.

(** ** Documents and a library instance for the examples *)
Module Examples.

Definition el (tag : String.string) (children : list Node) : Node :=
  MkNode ElementNode (str tag) [] children.

Definition txt (s : String.string) : Node := MkNode TextNode (str s) [] [].

Definition elA (tag : String.string) (attrs : list (String.string * String.string))
  (children : list Node) : Node :=
  MkNode ElementNode (str tag)
    (map (fun a => {| Namespace := []; Key := str (fst a); Val := str (snd a) |}) attrs)
    children.

Arguments el tag%_string children.
Arguments elA tag%_string attrs children.
Arguments txt s%_string.

(** What [html.Parse] builds around the content of a fragment. *)
Definition document (body : list Node) : Node :=
  MkNode DocumentNode [] [] [el "html" [el "head" []; el "body" body]].

(** [<li>x</li>] *)
Definition liDocument : Node := document [el "li" [txt "x"]].

(** [<p>A</p><div></div><p>B</p><p></p><p>C</p>] *)
Definition blankDocument : Node :=
  document [el "p" [txt "A"]; el "div" []; el "p" [txt "B"]; el "p" [];
            el "p" [txt "C"]].

(** [<ol><li>a<ol><li>x</li><li>y</li></ol></li><li>b</li></ol><ol><li>c</li></ol>] *)
Definition nestedDocument : Node :=
  document
    [el "ol" [el "li" [txt "a"; el "ol" [el "li" [txt "x"]; el "li" [txt "y"]]];
              el "li" [txt "b"]];
     el "ol" [el "li" [txt "c"]]].

Definition parseTable : list (gostring * Node) :=
  [ (str "<li>x</li>", liDocument);
    (str "<p>A</p><div></div><p>B</p><p></p><p>C</p>", blankDocument);
    (str "<ol><li>a<ol><li>x</li><li>y</li></ol></li><li>b</li></ol><ol><li>c</li></ol>",
     nestedDocument);
    (str "<p>A</p>", document [el "p" [txt "A"]]);
    (str "<p>B</p>", document [el "p" [txt "B"]]) ].

(** The headers of the examples as [mime.ParseMediaType] reads them. *)
Definition mediaTable : list (gostring * (gostring * list (gostring * gostring))) :=
  [ (str "text/plain; charset=utf-8", (str "text/plain", [(str "charset", str "utf-8")]));
    (str "text/html; charset=utf-8", (str "text/html", [(str "charset", str "utf-8")]));
    (str "text/plain; charset=x-unknown",
     (str "text/plain", [(str "charset", str "x-unknown")]));
    (str "image/png", (str "image/png", []));
    (str "multipart/alternative; boundary=B",
     (str "multipart/alternative", [(str "boundary", str "B")]));
    (str "multipart/related; boundary=B",
     (str "multipart/related", [(str "boundary", str "B")])) ].

(** An instance for the inputs of the examples: the documents and headers
    are those of the tables, a multipart body is given by its parts, the
    transfer decoders are not used, no character set is known. *)
Definition exampleLib (parts : list Part) : GoLib :=
  {| unicodeToLower := fun s => s;
     unescapeEntities := fun s => s;
     Parse := fun src =>
       match lookup src parseTable with
       | Some doc => inl doc
       | None => inr (errorsNew (str "not in the table"))
       end;
     ParseMediaType := fun v =>
       match lookup v mediaTable with
       | Some (t, params) => (t, params, None)
       | None => ([], [], Some (errorsNew (str "mime: no media type")))
       end;
     quotedprintableNewReader := fun r => r;
     base64NewDecoder := fun r => r;
     charsetNewReaderLabel := fun _ _ =>
       inr (errorsNew (str "unsupported charset"));
     multipartParts := fun _ _ => (parts, None) |}.

Definition header (fields : list (String.string * String.string)) : Header :=
  map (fun f => (str (fst f), [str (snd f)])) fields.

Definition htmlPartA : Part :=
  {| PHeader := header [("Content-Type", "text/html; charset=utf-8")]%string;
     PBody := NewReader (str "<p>A</p>") |}.

Definition htmlPartB : Part :=
  {| PHeader := header [("Content-Type", "text/html; charset=utf-8")]%string;
     PBody := NewReader (str "<p>B</p>") |}.

Definition plainPart : Part :=
  {| PHeader := header [("Content-Type", "text/plain; charset=utf-8")]%string;
     PBody := NewReader (str "Plain body text" ++ [x0d; x0a]) |}.

Definition imagePart : Part :=
  {| PHeader := header [("Content-Type", "image/png");
                        ("Content-Disposition", "inline")]%string;
     PBody := NewReader [x89; x50; x4e; x47] |}.

Definition attachedPart : Part :=
  {| PHeader := header [("Content-Type", "text/plain; charset=utf-8");
                        ("Content-Disposition", "Attachment; filename=notes.txt")]%string;
     PBody := NewReader (str "notes") |}.

Definition unknownCharsetPart : Part :=
  {| PHeader := header [("Content-Type", "text/plain; charset=x-unknown")]%string;
     PBody := NewReader (str "caf" ++ [xe9]) |}.

Definition alternativeMessage : Mime.Message :=
  {| Mime.MHeader := header [("Content-Type", "multipart/alternative; boundary=B")]%string;
     Mime.MBody := NewReader [] |}.

Definition relatedMessage : Mime.Message :=
  {| Mime.MHeader := header [("Content-Type", "multipart/related; boundary=B")]%string;
     Mime.MBody := NewReader [] |}.

(** The bodies of the examples that carry base64 text, as
    [base64.NewDecoder] with [base64.StdEncoding] reads them: the text
    decoded, or the error of the first byte that is no base64 text. *)
Definition base64Table : list (gostring * Reader) :=
  [ (str "PHA+QTwvcD4=", NewReader (str "<p>A</p>"));
    (str "!!!!",
     {| rdata := [];
        rerr := Some (errorsNew (str "illegal base64 data at input byte 0")) |}) ].

(** [exampleLib] with the base64 decoder of that table. *)
Definition base64Lib (parts : list Part) : GoLib :=
  {| unicodeToLower := @unicodeToLower (exampleLib parts);
     unescapeEntities := @unescapeEntities (exampleLib parts);
     Parse := @Parse (exampleLib parts);
     ParseMediaType := @ParseMediaType (exampleLib parts);
     quotedprintableNewReader := @quotedprintableNewReader (exampleLib parts);
     base64NewDecoder := fun r =>
       match lookup (rdata r) base64Table with
       | Some decoded => decoded
       | None => {| rdata := []; rerr := Some (errorsNew (str "not in the table")) |}
       end;
     charsetNewReaderLabel := @charsetNewReaderLabel (exampleLib parts);
     multipartParts := @multipartParts (exampleLib parts) |}.

(** A [text/html] part in base64: [<p>A</p>]. *)
Definition base64HtmlPart : Part :=
  {| PHeader := header [("Content-Type", "text/html; charset=utf-8");
                        ("Content-Transfer-Encoding", "base64")]%string;
     PBody := NewReader (str "PHA+QTwvcD4=") |}.

(** A [text/html] part that says base64 and carries none. *)
Definition corruptHtmlPart : Part :=
  {| PHeader := header [("Content-Type", "text/html; charset=utf-8");
                        ("Content-Transfer-Encoding", "base64")]%string;
     PBody := NewReader (str "!!!!") |}.

(** The text with these lines. *)
Definition lines_of (ls : list String.string) : gostring := Join (map str ls) nl.

End Examples.

(** ** Lemmas on the string functions *)
Section StringFacts.

Lemma beq_true a b : beq a b = true <-> a = b.
Proof.
  unfold beq; split; intro H.
  - now apply Byte.byte_dec_bl.
  - now apply Byte.byte_dec_lb.
Qed.

Lemma beq_refl a : beq a a = true.
Proof. now apply beq_true. Qed.

Lemma streq_true s t : streq s t = true <-> s = t.
Proof.
  revert t; induction s as [|a s IH]; intros [|b t]; simpl; split; intro H;
    try reflexivity; try discriminate.
  - apply andb_true_iff in H as [H1 H2]. apply beq_true in H1. apply IH in H2.
    congruence.
  - injection H as -> ->. rewrite beq_refl. simpl. now apply IH.
Qed.

Lemma streq_false s t : streq s t = false <-> s <> t.
Proof.
  split; intro H.
  - intro E. apply streq_true in E. congruence.
  - destruct (streq s t) eqn:E; [apply streq_true in E; contradiction | reflexivity].
Qed.

Lemma HasPrefix_nil s : HasPrefix s [] = true.
Proof. now destruct s. Qed.

Lemma SplitAux_nl_cons cur c s :
  SplitAux nl 0 cur (c :: s) =
  if beq c x0a then rev cur :: SplitAux nl 0 [] s else SplitAux nl 0 (c :: cur) s.
Proof.
  simpl. rewrite HasPrefix_nil, andb_true_r. reflexivity.
Qed.

Lemma SplitAux_nonnil sep k cur s : SplitAux sep k cur s <> [].
Proof.
  revert k cur; induction s as [|c s IH]; intros k cur; simpl.
  - discriminate.
  - destruct k as [|k]; [|apply IH].
    match goal with |- (if ?b then _ else _) <> _ => destruct b end;
      [discriminate | apply IH].
Qed.

Lemma SplitAux_app_nl cur a b :
  SplitAux nl 0 cur (a ++ x0a :: b) =
  removelast (SplitAux nl 0 cur a) ++
  [last (SplitAux nl 0 cur a) []] ++ Split b nl.
Proof.
  revert cur; induction a as [|c a IH]; intro cur.
  - rewrite app_nil_l, SplitAux_nl_cons, beq_refl. reflexivity.
  - rewrite <- app_comm_cons, !SplitAux_nl_cons.
    destruct (beq c x0a).
    + rewrite IH.
      destruct (SplitAux nl 0 [] a) eqn:E; [now apply SplitAux_nonnil in E|].
      reflexivity.
    + apply IH.
Qed.

Lemma Split_app_nl a b : Split (a ++ x0a :: b) nl = Split a nl ++ Split b nl.
Proof.
  unfold Split at 1 2. rewrite SplitAux_app_nl.
  rewrite app_assoc. f_equal. symmetry. apply app_removelast_last.
  apply SplitAux_nonnil.
Qed.

Lemma SplitAux_noNL cur l : noNL l -> SplitAux nl 0 cur l = [rev cur ++ l].
Proof.
  revert cur; induction l as [|c l IH]; intros cur H.
  - simpl. now rewrite app_nil_r.
  - rewrite SplitAux_nl_cons.
    destruct (beq c x0a) eqn:E.
    + apply beq_true in E. subst. exfalso. apply H. now left.
    + rewrite IH.
      * simpl. now rewrite <- app_assoc.
      * intro K. apply H. now right.
Qed.

Lemma Split_noNL l : noNL l -> Split l nl = [l].
Proof. intro H. unfold Split. now rewrite SplitAux_noNL. Qed.

Lemma Split_Join ls :
  ls <> [] -> Forall noNL ls -> Split (Join ls nl) nl = ls.
Proof.
  induction ls as [|l ls IH]; intros Hne Hall; [congruence|].
  inversion Hall as [|? ? Hl Hls]; subst.
  destruct ls as [|l' ls].
  - simpl. now apply Split_noNL.
  - change (Join (l :: l' :: ls) nl) with (l ++ x0a :: Join (l' :: ls) nl).
    rewrite Split_app_nl, Split_noNL by assumption.
    rewrite IH by (assumption || discriminate). reflexivity.
Qed.

Lemma SplitAux_lines_noNL cur s :
  noNL cur -> Forall noNL (SplitAux nl 0 cur s).
Proof.
  revert cur; induction s as [|c s IH]; intros cur H.
  - simpl. constructor; [|constructor]. intro K. apply H. now apply in_rev.
  - rewrite SplitAux_nl_cons. destruct (beq c x0a) eqn:E.
    + constructor.
      * intro K. apply H. now apply in_rev.
      * apply IH. intros [].
    + apply IH. intros [K|K]; [subst; now rewrite beq_refl in E | now apply H].
Qed.

Lemma Split_lines_noNL s : Forall noNL (Split s nl).
Proof. apply SplitAux_lines_noNL. intros []. Qed.

Lemma Join_cons_cons l l' ls sep :
  Join (l :: l' :: ls) sep = l ++ sep ++ Join (l' :: ls) sep.
Proof. reflexivity. Qed.

Lemma SplitAux_Join cur s :
  Join (SplitAux nl 0 cur s) nl = rev cur ++ s.
Proof.
  revert cur; induction s as [|c s IH]; intro cur.
  - simpl. now rewrite app_nil_r.
  - rewrite SplitAux_nl_cons. destruct (beq c x0a) eqn:E.
    + apply beq_true in E; subst.
      destruct (SplitAux nl 0 [] s) eqn:F; [now apply SplitAux_nonnil in F|].
      rewrite Join_cons_cons, <- F, IH. reflexivity.
    + rewrite IH. simpl. now rewrite <- app_assoc.
Qed.

Lemma Join_Split s : Join (Split s nl) nl = s.
Proof. apply (SplitAux_Join [] s). Qed.

Lemma In_Join_incl l ls sep : In l ls -> incl l (Join ls sep).
Proof.
  induction ls as [|l' ls IH]; intros H; [destruct H|].
  destruct ls as [|l'' ls].
  - destruct H as [->|[]]. apply incl_refl.
  - rewrite Join_cons_cons. destruct H as [->|H].
    + now apply incl_appl.
    + apply incl_appr, incl_appr. now apply IH.
Qed.

Lemma In_Split_incl l s : In l (Split s nl) -> incl l s.
Proof.
  intro H. rewrite <- (Join_Split s) at 1. now apply In_Join_incl.
Qed.

(** [TrimLeft] and [TrimRight] with the cutset ["\n"]. *)
Lemma TrimLeft_nl_spec s : exists k, s = repeat x0a k ++ TrimLeft s nl.
Proof.
  induction s as [|c s [k IH]].
  - now exists 0.
  - simpl. rewrite orb_false_r. destruct (beq c x0a) eqn:E.
    + apply beq_true in E; subst. exists (S k). simpl. now f_equal.
    + now exists 0.
Qed.

Lemma repeat_snoc (x : byte) k : repeat x k ++ [x] = x :: repeat x k.
Proof. induction k as [|k IH]; simpl; congruence. Qed.

Lemma rev_repeat_byte (x : byte) k : rev (repeat x k) = repeat x k.
Proof.
  induction k as [|k IH]; [reflexivity|].
  simpl. rewrite IH. apply repeat_snoc.
Qed.

Lemma TrimRight_nl_spec s : exists k, s = TrimRight s nl ++ repeat x0a k.
Proof.
  unfold TrimRight. destruct (TrimLeft_nl_spec (rev s)) as [k H].
  exists k. apply (f_equal (@rev byte)) in H.
  rewrite rev_involutive, rev_app_distr, rev_repeat_byte in H. exact H.
Qed.

Lemma space2_ws c d : space2 c d = true -> wsByte c = true /\ wsByte d = true.
Proof.
  unfold space2. rewrite andb_true_iff, orb_true_iff, !beq_true.
  intros [-> [->| ->]]; split; reflexivity.
Qed.

Lemma space3_ws c d e :
  space3 c d e = true -> wsByte c = true /\ wsByte d = true /\ wsByte e = true.
Proof.
  unfold space3.
  rewrite !orb_true_iff, !andb_true_iff, !orb_true_iff, !beq_true.
  intros [[[[[-> ->] ->]|[[-> ->] H]]|[[-> ->] ->]]|[[-> ->] ->]];
    repeat split; try reflexivity.
  unfold wsByte.
  destruct H as [[[H| ->]| ->]| ->]; try reflexivity.
  unfold byteIn in H. apply andb_true_iff in H as [H _].
  rewrite H. apply orb_true_r.
Qed.

Lemma TrimLeftSpace_spec_len n :
  forall s, length s <= n ->
  exists p, s = p ++ TrimLeftSpace s /\ Forall (fun b => wsByte b = true) p.
Proof.
  induction n as [|n IH]; intros s Hn.
  - destruct s; [|simpl in Hn; lia]. exists []. now split.
  - destruct s as [|c s1]; [exists []; now split|].
    simpl in Hn. simpl.
    destruct (asciiSpace c) eqn:Ec.
    { destruct (IH s1) as [p [Hp Hw]]; [lia|].
      exists (c :: p). split; [simpl; now f_equal|].
      constructor; [unfold wsByte; now rewrite Ec | assumption]. }
    destruct s1 as [|d s2]; [exists []; now split|].
    simpl in Hn.
    destruct (space2 c d) eqn:E2.
    { apply space2_ws in E2 as [Wc Wd].
      destruct (IH s2) as [p [Hp Hw]]; [lia|].
      exists (c :: d :: p). split; [simpl; now do 2 f_equal|].
      now repeat constructor. }
    destruct s2 as [|e s3]; [exists []; now split|].
    simpl in Hn.
    destruct (space3 c d e) eqn:E3.
    { apply space3_ws in E3 as [Wc [Wd We]].
      destruct (IH s3) as [p [Hp Hw]]; [lia|].
      exists (c :: d :: e :: p). split; [simpl; now do 3 f_equal|].
      now repeat constructor. }
    exists []. now split.
Qed.

Lemma TrimLeftSpace_spec s :
  exists p, s = p ++ TrimLeftSpace s /\ Forall (fun b => wsByte b = true) p.
Proof. apply (TrimLeftSpace_spec_len (n := length s)). lia. Qed.

Lemma trimSpaceRev_spec_len n :
  forall r, length r <= n ->
  exists p, r = p ++ trimSpaceRev r /\ Forall (fun b => wsByte b = true) p.
Proof.
  induction n as [|n IH]; intros s Hn.
  - destruct s; [|simpl in Hn; lia]. exists []. now split.
  - destruct s as [|c s1]; [exists []; now split|].
    simpl in Hn. simpl.
    destruct (asciiSpace c) eqn:Ec.
    { destruct (IH s1) as [p [Hp Hw]]; [lia|].
      exists (c :: p). split; [simpl; now f_equal|].
      constructor; [unfold wsByte; now rewrite Ec | assumption]. }
    destruct s1 as [|d s2]; [exists []; now split|].
    simpl in Hn.
    destruct (space2 d c) eqn:E2.
    { apply space2_ws in E2 as [Wc Wd].
      destruct (IH s2) as [p [Hp Hw]]; [lia|].
      exists (c :: d :: p). split; [simpl; now do 2 f_equal|].
      now repeat constructor. }
    destruct s2 as [|e s3]; [exists []; now split|].
    simpl in Hn.
    destruct (space3 e d c) eqn:E3.
    { apply space3_ws in E3 as [Wc [Wd We]].
      destruct (IH s3) as [p [Hp Hw]]; [lia|].
      exists (c :: d :: e :: p). split; [simpl; now do 3 f_equal|].
      now repeat constructor. }
    exists []. now split.
Qed.

Lemma TrimRightSpace_spec s :
  exists q, s = TrimRightSpace s ++ q /\ Forall (fun b => wsByte b = true) q.
Proof.
  unfold TrimRightSpace.
  destruct (trimSpaceRev_spec_len (n := length (rev s)) (rev s)) as [p [Hp Hw]]; [lia|].
  exists (rev p). split.
  - rewrite <- rev_app_distr, <- Hp. now rewrite rev_involutive.
  - now apply Forall_rev.
Qed.

Lemma TrimSpace_spec s :
  exists p q, s = p ++ TrimSpace s ++ q /\
    Forall (fun b => wsByte b = true) p /\ Forall (fun b => wsByte b = true) q.
Proof.
  destruct (TrimLeftSpace_spec s) as [p [Hp Wp]].
  destruct (TrimRightSpace_spec (TrimLeftSpace s)) as [q [Hq Wq]].
  exists p, q. unfold TrimSpace. rewrite <- Hq. now repeat split.
Qed.

Lemma TrimSpace_incl s : incl (TrimSpace s) s.
Proof.
  destruct (TrimSpace_spec s) as [p [q [H _]]].
  rewrite H at 2. apply incl_appr, incl_appl, incl_refl.
Qed.

(** A byte that is no part of white space survives trimming. *)
Lemma TrimSpace_keeps b s : wsByte b = false -> In b s -> In b (TrimSpace s).
Proof.
  intros Hb Hin. destruct (TrimSpace_spec s) as [p [q [H [Wp Wq]]]].
  rewrite H in Hin. rewrite !in_app_iff in Hin.
  rewrite Forall_forall in Wp, Wq.
  destruct Hin as [K|[K|K]]; [apply Wp in K; congruence | assumption | apply Wq in K; congruence].
Qed.

Lemma HasPrefix_cons_In s c : HasPrefix s [c] = true -> In c s.
Proof.
  destruct s as [|d s]; simpl; [discriminate|].
  rewrite HasPrefix_nil, andb_true_r, beq_true. intros ->. now left.
Qed.

End StringFacts.

Import QuoteFolder Examples.

(** ** The quote folder *)
Section QuoteFolderFacts.

Lemma skipn_cons_nth (A : Type) (l : list A) i x r :
  skipn i l = x :: r -> nth_error l i = Some x /\ skipn (S i) l = r.
Proof.
  revert l; induction i as [|i IH]; intros [|y l] H; simpl in *; try discriminate.
  - injection H as -> ->. now split.
  - destruct (IH _ H) as [H1 H2]. split; [assumption|].
    destruct l; [destruct i; discriminate | exact H2].
Qed.

Lemma nth_skipn_cons (A : Type) (l : list A) i x :
  nth_error l i = Some x -> skipn i l = x :: skipn (S i) l.
Proof.
  revert l; induction i as [|i IH]; intros [|y l] H; simpl in *; try discriminate.
  - now injection H as ->.
  - rewrite (IH _ H). reflexivity.
Qed.

Lemma hideQuotedPart_splitPoint md removeQuotes :
  hideQuotedPart md removeQuotes =
  match splitPoint md with
  | None => md
  | Some split => foldAt (Split md nl) split removeQuotes
  end.
Proof.
  unfold hideQuotedPart, splitPoint. now destruct (streq (TrimSpace md) []).
Qed.

Lemma findSplitFrom_none lines rest i :
  skipn i lines = rest ->
  (forall j, i <= j -> splitRule lines j = false) ->
  findSplitFrom lines i rest = None.
Proof.
  revert i; induction rest as [|ln rest IH]; intros i Hs Hno; [reflexivity|].
  apply skipn_cons_nth in Hs as [Hn Hs].
  pose proof (Hno i (le_n i)) as Hi. unfold splitRule in Hi. rewrite Hn in Hi.
  cbn [findSplitFrom]. destruct (streq (TrimSpace ln) []).
  - apply IH; [assumption | intros j Hj; apply Hno; lia].
  - cbn [negb andb] in Hi. apply orb_false_iff in Hi as [-> ->].
    apply IH; [assumption | intros j Hj; apply Hno; lia].
Qed.

Lemma quotedLine_nonblank lines k :
  quotedLine lines k = true ->
  exists l, nth_error lines k = Some l /\
            HasPrefix (TrimSpace l) (str ">") = true /\
            streq (TrimSpace l) [] = false.
Proof.
  unfold quotedLine. destruct (nth_error lines k) as [l|]; [|discriminate].
  intro H. exists l. repeat split; [assumption|].
  apply streq_false. intro E. rewrite E in H. discriminate.
Qed.

Lemma isQuoteBlock_run lines k :
  quotedLine lines k = true ->
  quotedLine lines (k + 1) = true ->
  quotedLine lines (k + 2) = true ->
  isQuoteBlock lines k = true.
Proof.
  intros H0 H1 H2.
  apply quotedLine_nonblank in H0 as [l0 [N0 [Q0 _]]].
  apply quotedLine_nonblank in H1 as [l1 [N1 [Q1 _]]].
  apply quotedLine_nonblank in H2 as [l2 [N2 [Q2 _]]].
  unfold isQuoteBlock.
  assert (Hlen : k < length lines) by (apply nth_error_Some; congruence).
  destruct (Nat.leb_spec (length lines) k); [lia|].
  rewrite (nth_skipn_cons _ _ N0).
  replace (S k) with (k + 1) by lia. rewrite (nth_skipn_cons _ _ N1).
  replace (S (k + 1)) with (k + 2) by lia. rewrite (nth_skipn_cons _ _ N2).
  cbn [quoteCount Nat.ltb Nat.leb]. rewrite Q0, Q1, Q2.
  now destruct (skipn (S (k + 2)) lines).
Qed.

Lemma findSplitFrom_le lines k rest i :
  skipn i lines = rest -> i <= k ->
  quotedLine lines k = true -> isQuoteBlock lines k = true ->
  exists s, findSplitFrom lines i rest = Some s /\ s <= k.
Proof.
  intros Hs Hik Hq Hb.
  apply quotedLine_nonblank in Hq as [l [Nk [_ Bk]]].
  revert i Hs Hik; induction rest as [|ln rest IH]; intros i Hs Hik.
  - exfalso. assert (k < length lines) by (apply nth_error_Some; congruence).
    apply (f_equal (@length gostring)) in Hs. rewrite length_skipn in Hs.
    simpl in Hs. lia.
  - apply skipn_cons_nth in Hs as [Hn Hs]. cbn [findSplitFrom].
    destruct (Nat.eq_dec i k) as [->|Hne].
    + assert (ln = l) by congruence. subst ln. rewrite Bk, Hb. now exists k.
    + destruct (streq (TrimSpace ln) []); [apply IH; [assumption|lia]|].
      destruct (isQuoteBlock lines i); [exists i; split; [reflexivity|lia]|].
      destruct (existsb _ pats); [exists i; split; [reflexivity|lia]|].
      apply IH; [assumption|lia].
Qed.

Lemma quotedLine_text_nonblank md k :
  quotedLine (Split md nl) k = true -> streq (TrimSpace md) [] = false.
Proof.
  intro H. apply quotedLine_nonblank in H as [l [Hn [Hq _]]].
  apply streq_false. intro E.
  assert (Hin : In x3e (TrimSpace md)).
  { apply TrimSpace_keeps; [reflexivity|].
    apply (In_Split_incl l); [eapply nth_error_In; eassumption|].
    apply (@TrimSpace_incl l). now apply HasPrefix_cons_In. }
  rewrite E in Hin. destruct Hin.
Qed.


Lemma prefix_firstn (A : Type) (a b lines : list A) s :
  a ++ b = firstn s lines -> a = firstn (length a) lines /\ length a <= s.
Proof.
  intro H.
  assert (Hl : length a <= s).
  { pose proof (firstn_le_length s lines) as K. rewrite <- H, length_app in K. lia. }
  split; [|assumption].
  rewrite <- (Nat.min_l _ _ Hl), <- firstn_firstn, <- H.
  rewrite firstn_app, Nat.sub_diag, firstn_0, app_nil_r. symmetry. apply firstn_all.
Qed.

Lemma In_firstn_le (A : Type) (x : A) k s lines :
  k <= s -> In x (firstn k lines) -> In x (firstn s lines).
Proof.
  intros Hk Hin. rewrite <- (Nat.min_l _ _ Hk), <- firstn_firstn in Hin.
  rewrite <- (firstn_skipn k (firstn s lines)). apply in_or_app. now left.
Qed.

(** The lines of the visible part are the first lines of the text. *)
Lemma visible_lines lines s :
  Forall noNL lines ->
  let visible := TrimRight (Join (firstn s lines) nl) nl in
  visible <> [] ->
  exists k, k <= s /\ Split visible nl = firstn k lines.
Proof.
  intros Hall visible Hne.
  destruct (TrimRight_nl_spec (Join (firstn s lines) nl)) as [j Hj].
  fold visible in Hj.
  assert (Hpre : firstn s lines <> []).
  { intro E. rewrite E in Hj. simpl in Hj. destruct visible; [congruence|discriminate]. }
  assert (Hsj : Split (Join (firstn s lines) nl) nl = firstn s lines).
  { apply Split_Join; [assumption|].
    rewrite <- (firstn_skipn s lines) in Hall. now apply Forall_app in Hall as [H _]. }
  rewrite Hj in Hsj.
  destruct j as [|j].
  - simpl in Hsj. rewrite app_nil_r in Hsj.
    rewrite <- (app_nil_r (Split visible nl)) in Hsj.
    apply prefix_firstn in Hsj as [H1 H2]. eauto.
  - simpl in Hsj. rewrite Split_app_nl in Hsj.
    apply prefix_firstn in Hsj as [H1 H2]. eauto.
Qed.

End QuoteFolderFacts.

(** C10.  When no line matches a split rule (no non-blank line starts a
    block of three quoted lines and none is matched by a pattern),
    [hideQuotedPart] returns its input unchanged, whatever [removeQuotes]
    is. *)
Theorem hideQuotedPart_no_match_unchanged (md : gostring) (removeQuotes : bool) :
  (forall i, splitRule (Split md nl) i = false) ->
  hideQuotedPart md removeQuotes = md.
Proof.
  intro H. unfold hideQuotedPart.
  destruct (streq (TrimSpace md) []); [reflexivity|].
  unfold findSplit. rewrite (@findSplitFrom_none _ (Split md nl) 0); auto.
Qed.

Lemma hideQuotedPart_no_match_unchanged_witness :
  hideQuotedPart (lines_of ["Hello,"; ""; "> one"; "> two"; "thanks -- Bob"]%string) true
  = lines_of ["Hello,"; ""; "> one"; "> two"; "thanks -- Bob"]%string.
Proof.
  apply hideQuotedPart_no_match_unchanged.
  intro i. do 5 (destruct i as [|i]; [vm_compute; reflexivity|]).
  unfold splitRule. destruct i; reflexivity.
Defined.

(** C7.  When lines [k], [k+1] and [k+2] of the text all start, once
    trimmed, with [>], [hideQuotedPart] finds a split index, and it is at
    most [k]. *)
Theorem hideQuotedPart_quote_run_split (md : gostring) (k : nat) (removeQuotes : bool) :
  quotedLine (Split md nl) k = true ->
  quotedLine (Split md nl) (k + 1) = true ->
  quotedLine (Split md nl) (k + 2) = true ->
  exists s, s <= k /\ splitPoint md = Some s /\
    hideQuotedPart md removeQuotes = foldAt (Split md nl) s removeQuotes.
Proof.
  intros H0 H1 H2.
  pose proof (isQuoteBlock_run _ _ H0 H1 H2) as Hb.
  destruct (@findSplitFrom_le (Split md nl) k (Split md nl) 0) as [s [Hs Hle]];
    try assumption; try reflexivity; try lia.
  exists s. rewrite hideQuotedPart_splitPoint. unfold splitPoint.
  rewrite (quotedLine_text_nonblank _ _ H0). unfold findSplit. rewrite Hs. auto.
Qed.

Lemma hideQuotedPart_quote_run_split_witness :
  exists s, s <= 2 /\
    splitPoint (lines_of ["Hi"; "From: a@b.org"; "> x"; "> y"; "> z"]%string) = Some s /\
    hideQuotedPart (lines_of ["Hi"; "From: a@b.org"; "> x"; "> y"; "> z"]%string) true =
    foldAt (Split (lines_of ["Hi"; "From: a@b.org"; "> x"; "> y"; "> z"]%string) nl) s true.
Proof.
  apply (@hideQuotedPart_quote_run_split
           (lines_of ["Hi"; "From: a@b.org"; "> x"; "> y"; "> z"]%string) 2 true);
    vm_compute; reflexivity.
Defined.

(** C3, as stated, fails: when nothing precedes the quoted lines, they are
    returned inside the [<details>] block although [removeQuotes] is set. *)
Lemma hideQuotedPart_discard_counterexample :
  splitPoint (lines_of ["> a"; "> b"; "> c"]%string) = Some 0 /\
  In (str "> a")
     (Split (hideQuotedPart (lines_of ["> a"; "> b"; "> c"]%string) true) nl) /\
  HasPrefix (TrimSpace (str "> a")) (str ">") = true.
Proof.
  vm_compute. repeat split. right. right. right. now left.
Qed.

(** A quoted line before the split index stays as well: a run of fewer
    than three quoted lines is no split point. *)
Example hideQuotedPart_discard_keeps_short_run :
  hideQuotedPart (lines_of ["> x"; "hello"; "--"; "Bob"]%string) true
  = lines_of ["> x"; "hello"; ""]%string.
Proof. vm_compute. reflexivity. Qed.

(** C3, amended.  When a split index [s] is found and the text before it
    is not blank, [hideQuotedPart md true] is that text and a newline:
    its lines are the first [k] lines of [md], for some [k <= s], and an
    empty line.  No line from index [s] on is left, and a line of the
    result that starts with [>] is one of the lines before [s]. *)
Theorem hideQuotedPart_discard_drops_quoted (md : gostring) (s : nat) :
  splitPoint md = Some s ->
  streq (TrimSpace (TrimRight (Join (firstn s (Split md nl)) nl) nl)) [] = false ->
  hideQuotedPart md true = TrimRight (Join (firstn s (Split md nl)) nl) nl ++ nl /\
  (exists k, k <= s /\
     Split (hideQuotedPart md true) nl = firstn k (Split md nl) ++ [[]]) /\
  (forall l, In l (Split (hideQuotedPart md true) nl) ->
     HasPrefix (TrimSpace l) (str ">") = true ->
     In l (firstn s (Split md nl))).
Proof.
  intros Hs Hv.
  assert (Hres : hideQuotedPart md true =
                 TrimRight (Join (firstn s (Split md nl)) nl) nl ++ nl).
  { rewrite hideQuotedPart_splitPoint, Hs. unfold foldAt. now rewrite Hv. }
  destruct (@visible_lines (Split md nl) s (Split_lines_noNL md)) as [k [Hk Hl]].
  { intro E. rewrite E in Hv. discriminate. }
  assert (Hlines : Split (hideQuotedPart md true) nl = firstn k (Split md nl) ++ [[]]).
  { rewrite Hres, (Split_app_nl _ [] : Split (_ ++ nl) nl = _), Hl. reflexivity. }
  split; [assumption|]. split; [eauto|].
  intros l Hin Hq. rewrite Hlines in Hin. apply in_app_or in Hin as [Hin|[<-|[]]].
  - now apply (In_firstn_le _ _ Hk).
  - discriminate.
Qed.

Lemma hideQuotedPart_discard_drops_quoted_witness :
  hideQuotedPart (lines_of ["> x"; "hello"; ""; "> a"; "> b"; "> c"]%string) true =
    TrimRight (Join (firstn 3
      (Split (lines_of ["> x"; "hello"; ""; "> a"; "> b"; "> c"]%string) nl)) nl) nl ++ nl /\
  (exists k, k <= 3 /\
     Split (hideQuotedPart (lines_of ["> x"; "hello"; ""; "> a"; "> b"; "> c"]%string) true) nl =
     firstn k (Split (lines_of ["> x"; "hello"; ""; "> a"; "> b"; "> c"]%string) nl) ++ [[]]) /\
  (forall l,
     In l (Split (hideQuotedPart
                    (lines_of ["> x"; "hello"; ""; "> a"; "> b"; "> c"]%string) true) nl) ->
     HasPrefix (TrimSpace l) (str ">") = true ->
     In l (firstn 3 (Split (lines_of ["> x"; "hello"; ""; "> a"; "> b"; "> c"]%string) nl))).
Proof.
  apply hideQuotedPart_discard_drops_quoted; vm_compute; reflexivity.
Defined.

(** ** The renderer *)
Import Html.

Lemma bind_Ok (A B : Type) (r : result A) (k : A -> result B) (b : B) :
  bind r k = Ok b -> exists a, r = Ok a /\ k a = Ok b.
Proof. destruct r; simpl; intro H; try discriminate. eauto. Qed.

Ltac inv_bind :=
  repeat match goal with
  | H : bind _ _ = Ok _ |- _ =>
      let a := fresh "st" in
      let H1 := fresh "Hw" in
      apply bind_Ok in H as [a [H1 H]]
  | H : Ok _ = Ok _ |- _ => injection H as H; try subst
  end.

Section RendererFacts.
Context {lib : GoLib}.

Lemma frame_refl st : frame st st.
Proof. now repeat split. Qed.

Lemma frame_trans st1 st2 st3 : frame st1 st2 -> frame st2 st3 -> frame st1 st3.
Proof.
  intros [A1 [B1 C1]] [A2 [B2 C2]]. repeat split; congruence.
Qed.

Lemma frame_stacks st st' :
  listStack st' = listStack st -> olCounters st' = olCounters st -> frame st st'.
Proof. intros H1 H2. unfold frame. rewrite H1, H2. now repeat split. Qed.

Lemma frame_WriteString s st : frame st (WriteString s st).
Proof. now apply frame_stacks. Qed.

Lemma listStack_ensureTwoNewlines st :
  listStack (ensureTwoNewlines st) = listStack st.
Proof.
  unfold ensureTwoNewlines.
  destruct (HasSuffix (buf st) (nl ++ nl)); [reflexivity|].
  now destruct (HasSuffix (buf st) nl).
Qed.

Lemma olCounters_ensureTwoNewlines st :
  olCounters (ensureTwoNewlines st) = olCounters st.
Proof.
  unfold ensureTwoNewlines.
  destruct (HasSuffix (buf st) (nl ++ nl)); [reflexivity|].
  now destruct (HasSuffix (buf st) nl).
Qed.

Lemma liPrefix_frame st :
  length (snd (liPrefix st)) = length (olCounters st) /\
  removelast (snd (liPrefix st)) = removelast (olCounters st).
Proof.
  unfold liPrefix.
  destruct ((0 <? length (listStack st)) && _); [|now split].
  destruct (olCounters st) as [|c oc] eqn:E; [now split|].
  cbn [snd]. rewrite removelast_last, length_app. simpl length.
  assert (K : length (removelast (c :: oc)) + 1 = S (length oc)).
  { assert (Hne : c :: oc <> []) by discriminate.
    pose proof (app_removelast_last 0%Z Hne) as E'.
    apply (f_equal (@length Z)) in E'. rewrite length_app in E'.
    cbn [length] in E'. lia. }
  split; [exact K | reflexivity].
Qed.

Lemma walkChildren_frame (f : Node -> RenderState -> result RenderState) cs :
  Forall (fun c => forall st st', f c st = Ok st' -> frame st st') cs ->
  forall st st', walkChildren f cs st = Ok st' -> frame st st'.
Proof.
  induction 1 as [|c cs Hc _ IH]; intros st st' H; simpl in H.
  - injection H as <-. apply frame_refl.
  - inv_bind. eapply frame_trans; [eapply Hc | eapply IH]; eassumption.
Qed.

Lemma popListStack_Ok st st1 :
  popListStack st = Ok st1 ->
  st1 = {| buf := buf st; listStack := removelast (listStack st);
           olCounters := olCounters st |}.
Proof.
  unfold popListStack. destruct (listStack st); intro H; [discriminate|].
  now injection H as <-.
Qed.

Lemma walk_frame n : forall inPre st st', walk inPre n st = Ok st' -> frame st st'.
Proof.
  induction n as [ty data attr children IH] using Node_ind.
  intros inPre st st' Hw.
  assert (HC : forall p st st',
             walkChildren (walk p) children st = Ok st' -> frame st st').
  { intro p. apply walkChildren_frame. eapply Forall_impl; [|exact IH].
    intros c Hc. apply Hc. }
  clear IH. cbn [walk] in Hw.
  destruct ty; try (eapply HC; eassumption).
  - destruct inPre; injection Hw as <-; apply frame_WriteString.
  - repeat match type of Hw with
           | context [if ?b then _ else _] => destruct b eqn:?
           end.
    all: try destruct (liPrefix st) eqn:?.
    all: try destruct (altSrcOf attr [] []) eqn:?.
    all: try match type of Hw with
             | context [if ?b then _ else _] => destruct b eqn:?
             end.
    all: inv_bind.
    all: repeat match goal with
                | H : walkChildren _ _ _ = Ok _ |- _ => apply HC in H
                end.
    all: unfold frame in *;
         rewrite ?listStack_ensureTwoNewlines, ?olCounters_ensureTwoNewlines in *;
         cbn [listStack olCounters WriteString pushList pushOlCounter popOlCounter] in *;
         rewrite ?listStack_ensureTwoNewlines, ?olCounters_ensureTwoNewlines in *.
    all: try solve [intuition congruence].
    all: repeat match goal with
                | H : popListStack _ = Ok _ |- _ => apply popListStack_Ok in H; subst
                end;
         cbn [listStack olCounters] in *.
    all: match goal with
         | H : liPrefix ?s = _ |- _ =>
             pose proof (liPrefix_frame s) as HL; rewrite H in HL; cbn [snd] in HL
         end.
    all: repeat match goal with
                | H : _ /\ _ |- _ => destruct H
                end.
    all: repeat match goal with
                | H : listStack _ = _ |- _ => rewrite H in *
                end.
    all: cbn [listStack olCounters popOlCounter] in *.
    all: repeat match goal with
                | H : listStack _ = _ |- _ => rewrite H in *
                | H : removelast (olCounters _) = _ |- _ => rewrite H in *
                end.
    all: rewrite ?removelast_last in *.
    all: repeat split; congruence.
Qed.

Lemma walkChildren_walk_frame p cs st st' :
  walkChildren (walk p) cs st = Ok st' -> frame st st'.
Proof.
  apply walkChildren_frame. apply Forall_forall. intros c _ st0 st1.
  apply walk_frame.
Qed.

(** Evaluates the tests of [walk] on a tag that is a literal. *)
Ltac tag_tests :=
  cbn [existsb];
  repeat match goal with
         | |- context [streq (str ?a) (str ?b)] =>
             let v := eval vm_compute in (streq (str a) (str b)) in
             change (streq (str a) (str b)) with v
         end;
  cbn [orb andb negb].

Lemma walk_ol inPre attr children st :
  walk inPre (MkNode ElementNode (str "ol") attr children) st =
  (st1 <- walkChildren (walk inPre) children
            {| buf := buf st; listStack := listStack st ++ [str "ol"];
               olCounters := olCounters st ++ [1%Z] |} ;;
   Ok (ensureTwoNewlines
         {| buf := buf st1; listStack := listStack st; olCounters := olCounters st |})).
Proof.
  cbn [walk]. unfold isPreElement. cbn [isElement].
  change (ToLower (str "ol")) with (str "ol").
  tag_tests. rewrite orb_false_r.
  unfold pushOlCounter, pushList. cbn [buf listStack olCounters].
  destruct (walkChildren _ children _) as [st1| |] eqn:E; try reflexivity.
  apply walkChildren_walk_frame in E. destruct E as [E1 [E2 E3]].
  cbn [listStack olCounters] in E1, E2, E3. rewrite removelast_last in E3.
  cbn [bind]. unfold popListStack, popOlCounter. cbn [buf listStack olCounters].
  rewrite E1, E3, removelast_last.
  now destruct (listStack st).
Qed.

Lemma Repeat_nat s n : Repeat s (Z.of_nat n) = Some (concat (repeat s n)).
Proof.
  unfold Repeat. destruct (Z.ltb_spec (Z.of_nat n) 0); [lia|].
  now rewrite Nat2Z.id.
Qed.

Lemma walk_li_ordered inPre attr children b ls oc c :
  walk inPre (MkNode ElementNode (str "li") attr children)
    {| buf := b; listStack := ls ++ [str "ol"]; olCounters := oc ++ [c] |} =
  (st1 <- walkChildren (walk inPre) children
            {| buf := b ++ concat (repeat (str "  ") (length ls)) ++
                      FormatInt c ++ str ". ";
               listStack := ls ++ [str "ol"];
               olCounters := oc ++ [wrapInt (c + 1)] |} ;;
   Ok (WriteString nl st1)).
Proof.
  cbn [walk]. unfold isPreElement. cbn [isElement].
  change (ToLower (str "li")) with (str "li").
  tag_tests. rewrite orb_false_r.
  unfold liPrefix. cbn [buf listStack olCounters].
  rewrite last_last, length_app. cbn [length].
  replace (0 <? length ls + 1) with true by (symmetry; apply Nat.ltb_lt; lia).
  change (streq (str "ol") (str "ol")) with true. cbn [andb].
  destruct (oc ++ [c]) eqn:E; [now destruct oc|]. rewrite <- E. clear E.
  rewrite last_last, removelast_last.
  unfold RepeatOrPanic.
  replace (Z.of_nat (length ls + 1) - 1)%Z with (Z.of_nat (length ls)) by lia.
  rewrite Repeat_nat. reflexivity.
Qed.

Lemma walk_li_bare inPre attr children b oc :
  walk inPre (MkNode ElementNode (str "li") attr children)
    {| buf := b; listStack := []; olCounters := oc |} =
  Panic (str "strings: negative Repeat count").
Proof.
  cbn [walk]. unfold isPreElement. cbn [isElement].
  change (ToLower (str "li")) with (str "li").
  tag_tests. reflexivity.
Qed.

(** *** [normalizeBlankLines] *)

Lemma HasPrefix_length s p : HasPrefix s p = true -> length p <= length s.
Proof.
  revert s; induction p as [|c p IH]; intros [|d s] H; simpl in *;
    try lia; try discriminate.
  apply andb_true_iff in H as [_ H]. apply IH in H. lia.
Qed.

Lemma ReplaceAllAux_length k s :
  length (ReplaceAllAux (nl ++ nl ++ nl) (nl ++ nl) k s) + Nat.min k (length s)
  <= length s.
Proof.
  revert k; induction s as [|c s IH]; intro k; [simpl; lia|].
  destruct k as [|k].
  - cbn [ReplaceAllAux].
    destruct (HasPrefix (c :: s) (nl ++ nl ++ nl)) eqn:E.
    + apply HasPrefix_length in E. specialize (IH 2).
      rewrite length_app. unfold nl in *. cbn [length app Nat.sub] in *. lia.
    + specialize (IH 0). cbn [length] in *. lia.
  - cbn [ReplaceAllAux]. specialize (IH k). cbn [length] in *. lia.
Qed.

Lemma ReplaceAll_shorter s :
  Contains s (nl ++ nl ++ nl) = true ->
  length (ReplaceAll s (nl ++ nl ++ nl) (nl ++ nl)) < length s.
Proof.
  unfold ReplaceAll. induction s as [|c s IH]; intro H; [discriminate|].
  cbn [Contains] in H. cbn [ReplaceAllAux].
  destruct (HasPrefix (c :: s) (nl ++ nl ++ nl)) eqn:E.
  - pose proof (HasPrefix_length _ _ E) as L.
    pose proof (ReplaceAllAux_length 2 s) as K.
    rewrite length_app. unfold nl in *. cbn [length app Nat.sub] in *. lia.
  - cbn [orb] in H. apply IH in H. cbn [length]. lia.
Qed.

Lemma normalizeLoop_done passes s :
  length s <= passes ->
  Contains (normalizeLoop passes s) (nl ++ nl ++ nl) = false.
Proof.
  revert s; induction passes as [|passes IH]; intros s H.
  - destruct s; [reflexivity | simpl in H; lia].
  - cbn [normalizeLoop].
    destruct (Contains s (nl ++ nl ++ nl)) eqn:E; [|exact E].
    apply IH. apply ReplaceAll_shorter in E. lia.
Qed.

(** More passes than [length s] change nothing: the loop has ended. *)
Lemma normalizeLoop_enough passes extra s :
  length s <= passes ->
  normalizeLoop (passes + extra) s = normalizeLoop passes s.
Proof.
  revert s; induction passes as [|passes IH]; intros s H.
  - destruct s; [|simpl in H; lia]. now destruct extra.
  - cbn [Nat.add normalizeLoop].
    destruct (Contains s (nl ++ nl ++ nl)) eqn:E; [|reflexivity].
    apply IH. apply ReplaceAll_shorter in E. lia.
Qed.

Lemma normalizeBlankLines_done s :
  Contains (normalizeBlankLines s) (nl ++ nl ++ nl) = false.
Proof. apply normalizeLoop_done. lia. Qed.

Lemma HasPrefix_app p b : HasPrefix (p ++ b) p = true.
Proof.
  induction p as [|c p IH]; [apply HasPrefix_nil|].
  simpl. now rewrite beq_refl.
Qed.

Lemma Contains_of_prefix s t : HasPrefix s t = true -> Contains s t = true.
Proof. intro H. destruct s; cbn [Contains]; now rewrite H. Qed.

Lemma Contains_app a t b : Contains (a ++ t ++ b) t = true.
Proof.
  induction a as [|c a IH].
  - rewrite app_nil_l. apply Contains_of_prefix, HasPrefix_app.
  - rewrite <- app_comm_cons. cbn [Contains]. rewrite IH. apply orb_true_r.
Qed.

End RendererFacts.

(** ** The body selector *)
Import Mime.

Section SelectorFacts.
Context {lib : GoLib}.

Lemma scanParts_passed pre tail perr firstHTML :
  Forall passed pre ->
  exists firstHTML', scanParts (pre ++ tail) perr firstHTML = scanParts tail perr firstHTML'.
Proof.
  intro H. revert firstHTML. induction H as [|q pre Hq _ IH]; intro firstHTML.
  - now exists firstHTML.
  - rewrite <- app_comm_cons. cbn [scanParts].
    destruct Hq as [Ha|[Ht [b Hb]]].
    + rewrite Ha. apply IH.
    + destruct (isAttachment q); [apply IH|].
      rewrite Ht, Hb. apply IH.
Qed.

Lemma scanParts_attachments post perr firstHTML :
  Forall (fun q => isAttachment q = true) post ->
  scanParts post perr firstHTML = scanParts [] perr firstHTML.
Proof.
  induction 1 as [|q post Hq _ IH]; [reflexivity|].
  cbn [scanParts]. now rewrite Hq.
Qed.

Lemma scanParts_plain p rest perr firstHTML b :
  isAttachment p = false -> partType p = str "text/plain" -> decodePart p = Ok b ->
  scanParts (p :: rest) perr firstHTML = Ok (TrimSpace b).
Proof.
  intros Ha Ht Hb. cbn [scanParts]. now rewrite Ha, Ht, Hb.
Qed.

Lemma scanParts_html h rest perr firstHTML b :
  isAttachment h = false -> partType h = str "text/html" -> decodePart h = Ok b ->
  scanParts (h :: rest) perr firstHTML = scanParts rest perr b.
Proof.
  intros Ha Ht Hb. cbn [scanParts]. now rewrite Ha, Ht, Hb.
Qed.

Lemma scanParts_plain_result p rest perr firstHTML :
  isAttachment p = false -> partType p = str "text/plain" ->
  scanParts (p :: rest) perr firstHTML = (b <- decodePart p ;; Ok (TrimSpace b)).
Proof.
  intros Ha Ht. cbn [scanParts]. now rewrite Ha, Ht.
Qed.

Lemma scanParts_html_result h rest perr firstHTML :
  isAttachment h = false -> partType h = str "text/html" ->
  scanParts (h :: rest) perr firstHTML = (b <- decodePart h ;; scanParts rest perr b).
Proof.
  intros Ha Ht. cbn [scanParts]. now rewrite Ha, Ht.
Qed.

Lemma scanParts_other q rest perr firstHTML :
  isAttachment q = false ->
  streq (partType q) (str "text/plain") = false ->
  streq (partType q) (str "text/html") = false ->
  scanParts (q :: rest) perr firstHTML = Err (errorsNew (str "no text part found")).
Proof.
  intros Ha H1 H2. cbn [scanParts]. now rewrite Ha, H1, H2.
Qed.

Lemma extract_multipart msg parts perr :
  multipartMessage msg parts perr ->
  extractBodyAsMarkdown msg = scanParts parts perr [].
Proof.
  intros [mediatype [params [H1 [H2 [H3 H4]]]]].
  unfold extractBodyAsMarkdown. now rewrite H1, H2, H3, H4.
Qed.

Lemma passed_attachments ps :
  Forall (fun q => isAttachment q = true) ps -> Forall passed ps.
Proof. apply Forall_impl. intros q H. now left. Qed.

End SelectorFacts.

(** C1.  The claim does not hold of the code; this is what the code does.
    A part that is no attachment and neither [text/plain] nor [text/html]
    ends the scan with the error "no text part found", also when the
    parts before it were passed and a [text/html] part among them has
    been captured. *)
Theorem scan_other_part_fails_after_html
  {lib : GoLib} (msg : Message) (pre : list Part) (q : Part) (rest : list Part)
  (perr : option error) :
  multipartMessage msg (pre ++ q :: rest) perr ->
  Forall passed pre ->
  isAttachment q = false ->
  streq (partType q) (str "text/plain") = false ->
  streq (partType q) (str "text/html") = false ->
  extractBodyAsMarkdown msg = Err (errorsNew (str "no text part found")).
Proof.
  intros Hm Hpre Ha H1 H2. rewrite (extract_multipart Hm).
  destruct (scanParts_passed (q :: rest) perr [] Hpre) as [fh ->].
  now apply scanParts_other.
Qed.

Lemma scan_other_part_fails_after_html_witness :
  extractBodyAsMarkdown (lib := exampleLib [htmlPartA; imagePart]) relatedMessage
  = Err (errorsNew (str "no text part found")).
Proof.
  apply (@scan_other_part_fails_after_html (exampleLib [htmlPartA; imagePart])
           relatedMessage [htmlPartA] imagePart [] None).
  - exists (str "multipart/related"), [(str "boundary", str "B")].
    repeat split; vm_compute; reflexivity.
  - constructor; [|constructor]. right. split; [reflexivity|].
    exists (str "<p>A</p>"). reflexivity.
  - reflexivity.
  - reflexivity.
  - reflexivity.
Defined.

(** C2.  The claim does not hold of the code; this is what the code does.
    When no [text/plain] part is met, the [text/html] part that is
    rendered is the last one the scan decodes: each one replaces the
    value of [firstHTML]. *)
Theorem scan_renders_last_html
  {lib : GoLib} (msg : Message) (pre : list Part) (h : Part) (post : list Part)
  (b : gostring) :
  multipartMessage msg (pre ++ h :: post) None ->
  Forall passed pre ->
  isAttachment h = false -> partType h = str "text/html" -> decodePart h = Ok b ->
  Forall (fun q => isAttachment q = true) post ->
  extractBodyAsMarkdown msg =
  if negb (streq b []) then htmlToPlain b else Ok [].
Proof.
  intros Hm Hpre Ha Ht Hb Hpost. rewrite (extract_multipart Hm).
  destruct (scanParts_passed (h :: post) None [] Hpre) as [fh ->].
  rewrite (@scanParts_html _ h post None fh b Ha Ht Hb).
  now rewrite scanParts_attachments.
Qed.

Lemma scan_renders_last_html_witness :
  extractBodyAsMarkdown (lib := exampleLib [htmlPartA; htmlPartB]) alternativeMessage
  = Ok (str "B").
Proof.
  rewrite (@scan_renders_last_html (exampleLib [htmlPartA; htmlPartB])
             alternativeMessage [htmlPartA] htmlPartB [] (str "<p>B</p>")).
  - vm_compute. reflexivity.
  - exists (str "multipart/alternative"), [(str "boundary", str "B")].
    repeat split; vm_compute; reflexivity.
  - constructor; [|constructor]. right. split; [reflexivity|].
    exists (str "<p>A</p>"). reflexivity.
  - reflexivity.
  - reflexivity.
  - reflexivity.
  - constructor.
Defined.

(** C6, as stated, fails: the text of the [text/plain] part is not
    returned in either order.  With a [text/html] part that cannot be
    decoded, the text comes back when the [text/plain] part is declared
    first, and the error of decoding the [text/html] part when that part
    is declared first. *)
Lemma extract_plain_part_order_counterexample :
  (isAttachment (lib := base64Lib []) plainPart = false /\
   partType (lib := base64Lib []) plainPart = str "text/plain" /\
   isAttachment (lib := base64Lib []) corruptHtmlPart = false /\
   partType (lib := base64Lib []) corruptHtmlPart = str "text/html") /\
  extractBodyAsMarkdown (lib := base64Lib [plainPart; corruptHtmlPart])
    alternativeMessage = Ok (str "Plain body text") /\
  extractBodyAsMarkdown (lib := base64Lib [corruptHtmlPart; plainPart])
    alternativeMessage = Err (errorsNew (str "illegal base64 data at input byte 0")).
Proof. vm_compute. repeat split. Qed.

(** C6, amended.  When the scan of a multipart message reaches a part
    that is no attachment and is [text/plain] (the parts before it are
    attachments or [text/html] parts that decode), the result is that of
    decoding this part, whatever follows: its decoded text, trimmed, or
    the error of reading it.  In particular, when the parts that are no
    attachments are one [text/plain] part and one [text/html] part: with
    the [text/plain] part first the result is that of decoding it, and
    the [text/html] part is not looked at; with the [text/html] part
    first, that part is decoded first, and the error of reading it, if
    any, is the result, so that the text of the [text/plain] part is
    returned when both parts decode. *)
Theorem extract_plain_part_wins
  {lib : GoLib} (msg : Message) (p : Part) :
  isAttachment p = false -> partType p = str "text/plain" ->
  (forall pre rest perr,
     multipartMessage msg (pre ++ p :: rest) perr ->
     Forall passed pre ->
     extractBodyAsMarkdown msg = (b <- decodePart p ;; Ok (TrimSpace b))) /\
  (forall h a1 a2 a3 perr,
     isAttachment h = false -> partType h = str "text/html" ->
     Forall (fun q => isAttachment q = true) (a1 ++ a2 ++ a3) ->
     (multipartMessage msg (a1 ++ p :: a2 ++ h :: a3) perr ->
      extractBodyAsMarkdown msg = (b <- decodePart p ;; Ok (TrimSpace b))) /\
     (multipartMessage msg (a1 ++ h :: a2 ++ p :: a3) perr ->
      extractBodyAsMarkdown msg =
      (_ <- decodePart h ;; b <- decodePart p ;; Ok (TrimSpace b)))).
Proof.
  intros Ha Ht.
  assert (General : forall pre rest perr,
             multipartMessage msg (pre ++ p :: rest) perr ->
             Forall passed pre ->
             extractBodyAsMarkdown msg = (b <- decodePart p ;; Ok (TrimSpace b))).
  { intros pre rest perr Hm Hpre. rewrite (extract_multipart Hm).
    destruct (scanParts_passed (p :: rest) perr [] Hpre) as [fh ->].
    now apply scanParts_plain_result. }
  split; [exact General|].
  intros h a1 a2 a3 perr Hha Hht Hatt.
  apply Forall_app in Hatt as [F1 Hatt]. apply Forall_app in Hatt as [F2 F3].
  split; intro Hm.
  - apply (General a1 (a2 ++ h :: a3) perr Hm). now apply passed_attachments.
  - rewrite (extract_multipart Hm).
    destruct (scanParts_passed (h :: a2 ++ p :: a3) perr []
                (passed_attachments F1)) as [fh ->].
    rewrite (@scanParts_html_result _ h (a2 ++ p :: a3) perr fh Hha Hht).
    destruct (decodePart h) as [bh|e|m]; cbn [bind]; [|reflexivity|reflexivity].
    destruct (scanParts_passed (p :: a3) perr bh (passed_attachments F2)) as [fh' ->].
    now apply scanParts_plain_result.
Qed.

Lemma extract_plain_part_wins_witness :
  extractBodyAsMarkdown (lib := base64Lib [attachedPart; base64HtmlPart; plainPart])
    alternativeMessage = Ok (str "Plain body text") /\
  extractBodyAsMarkdown (lib := base64Lib [plainPart; attachedPart; corruptHtmlPart])
    alternativeMessage = Ok (str "Plain body text") /\
  extractBodyAsMarkdown (lib := base64Lib [corruptHtmlPart; attachedPart; plainPart])
    alternativeMessage = Err (errorsNew (str "illegal base64 data at input byte 0")).
Proof.
  assert (M : forall parts,
             multipartMessage (lib := base64Lib parts) alternativeMessage parts None).
  { intro parts. exists (str "multipart/alternative"), [(str "boundary", str "B")].
    repeat split; vm_compute; reflexivity. }
  split; [|split].
  - rewrite (proj2 (proj2 (@extract_plain_part_wins
               (base64Lib [attachedPart; base64HtmlPart; plainPart]) alternativeMessage
               plainPart eq_refl eq_refl)
               base64HtmlPart [attachedPart] [] [] None eq_refl eq_refl
               ltac:(repeat constructor)) (M _)).
    reflexivity.
  - rewrite (proj1 (proj2 (@extract_plain_part_wins
               (base64Lib [plainPart; attachedPart; corruptHtmlPart]) alternativeMessage
               plainPart eq_refl eq_refl)
               corruptHtmlPart [] [attachedPart] [] None eq_refl eq_refl
               ltac:(repeat constructor)) (M _)).
    reflexivity.
  - rewrite (proj2 (proj2 (@extract_plain_part_wins
               (base64Lib [corruptHtmlPart; attachedPart; plainPart]) alternativeMessage
               plainPart eq_refl eq_refl)
               corruptHtmlPart [] [attachedPart] [] None eq_refl eq_refl
               ltac:(repeat constructor)) (M _)).
    reflexivity.
Defined.

(** C8.  Once the transfer-decoded bytes have been read, [readAndDecodePart]
    returns no error: with a character set other than the empty one,
    [utf-8] and [us-ascii], it returns these bytes as they are when the
    label is not known or the conversion fails, and the converted bytes
    otherwise. *)
Theorem readAndDecodePart_charset_never_fails
  {lib : GoLib} (r : Reader) (contentType cteHeader raw : gostring) :
  ReadAll (decodedReader r cteHeader) = (raw, None) ->
  (exists b, readAndDecodePart r contentType cteHeader = Ok b) /\
  (streq (charsetLabel contentType) [] ||
   streq (charsetLabel contentType) (str "utf-8") ||
   streq (charsetLabel contentType) (str "us-ascii") = false ->
   (forall e,
      charsetNewReaderLabel (charsetLabel contentType) (NewReader raw) = inr e ->
      readAndDecodePart r contentType cteHeader = Ok raw) /\
   (forall cr conv e,
      charsetNewReaderLabel (charsetLabel contentType) (NewReader raw) = inl cr ->
      ReadAll cr = (conv, Some e) ->
      readAndDecodePart r contentType cteHeader = Ok raw) /\
   (forall cr conv,
      charsetNewReaderLabel (charsetLabel contentType) (NewReader raw) = inl cr ->
      ReadAll cr = (conv, None) ->
      readAndDecodePart r contentType cteHeader = Ok conv)).
Proof.
  intro Hraw. unfold readAndDecodePart. rewrite Hraw. split.
  - destruct (_ || _ || _); [eauto|].
    destruct (charsetNewReaderLabel _ _) as [cr|e]; [|eauto].
    destruct (ReadAll cr) as [conv [e|]]; eauto.
  - intros ->. repeat split.
    + intros e ->. reflexivity.
    + intros cr conv e -> ->. reflexivity.
    + intros cr conv -> ->. reflexivity.
Qed.

Lemma readAndDecodePart_charset_never_fails_witness :
  readAndDecodePart (lib := exampleLib []) (PBody unknownCharsetPart)
    (str "text/plain; charset=x-unknown") [] = Ok (str "caf" ++ [xe9]).
Proof.
  refine (proj1 (proj2 (@readAndDecodePart_charset_never_fails (exampleLib [])
            (PBody unknownCharsetPart) (str "text/plain; charset=x-unknown") []
            (str "caf" ++ [xe9]) eq_refl) eq_refl)
            (errorsNew (str "unsupported charset")) eq_refl).
Defined.

(** C4.  [htmlToPlain] is not total.  A list item met while no list is
    open makes [strings.Repeat] panic on the count [len(listStack)-1 = -1];
    so does the document of [<li>x</li>], and every input that parses to
    it. *)
Theorem htmlToPlain_li_outside_list_panics {lib : GoLib} :
  (forall inPre attr children b oc,
     walk inPre (MkNode ElementNode (str "li") attr children)
       {| buf := b; listStack := []; olCounters := oc |}
     = Panic (str "strings: negative Repeat count")) /\
  Repeat (str "  ") (Z.of_nat (length (listStack initialState)) - 1) = None /\
  renderDocument liDocument = Panic (str "strings: negative Repeat count") /\
  (forall htmlSrc,
     Parse htmlSrc = inl liDocument ->
     htmlToPlain htmlSrc = Panic (str "strings: negative Repeat count")).
Proof.
  split; [intros; apply walk_li_bare|].
  split; [reflexivity|].
  assert (H : renderDocument liDocument = Panic (str "strings: negative Repeat count"))
    by (vm_compute; reflexivity).
  split; [exact H|].
  intros htmlSrc Hp. unfold htmlToPlain. now rewrite Hp.
Qed.

Lemma htmlToPlain_li_outside_list_panics_witness :
  htmlToPlain (lib := exampleLib []) (str "<li>x</li>")
  = Panic (str "strings: negative Repeat count").
Proof.
  apply (proj2 (proj2 (proj2 (@htmlToPlain_li_outside_list_panics (exampleLib []))))).
  vm_compute. reflexivity.
Defined.

(** C5.  What [htmlToPlain] returns contains no three newlines in a
    row. *)
Theorem htmlToPlain_no_three_newlines {lib : GoLib} (htmlSrc out : gostring) :
  htmlToPlain htmlSrc = Ok out ->
  Contains out (nl ++ nl ++ nl) = false /\
  (forall a b, out <> a ++ (nl ++ nl ++ nl) ++ b).
Proof.
  intro H.
  assert (C : Contains out (nl ++ nl ++ nl) = false).
  { unfold htmlToPlain in H. destruct (Parse htmlSrc) as [doc|e]; [|discriminate].
    unfold renderDocument in H. inv_bind. apply normalizeBlankLines_done. }
  split; [exact C|].
  intros a b E. rewrite E, Contains_app in C. discriminate.
Qed.

Lemma htmlToPlain_no_three_newlines_witness :
  Contains (lines_of ["A"; ""; "B"; ""; "C"]%string) (nl ++ nl ++ nl) = false /\
  (forall a b, lines_of ["A"; ""; "B"; ""; "C"]%string <> a ++ (nl ++ nl ++ nl) ++ b).
Proof.
  apply (@htmlToPlain_no_three_newlines (exampleLib [])
           (str "<p>A</p><div></div><p>B</p><p></p><p>C</p>")).
  vm_compute. reflexivity.
Defined.

(** The blank lines the walk leaves before the normalisation. *)
Example normalizeBlankLines_needed :
  (st <- walk (lib := exampleLib []) false blankDocument initialState ;; Ok (buf st))
  = Ok (nl ++ nl ++ lines_of ["A"; ""; "B"; ""; "C"; ""; ""]%string).
Proof. vm_compute. reflexivity. Qed.

(** C9.  An ordered list walks its children with a fresh counter 1 on top
    of the counters and leaves both stacks as it found them; a list item
    whose innermost list is ordered prints the top counter and increments
    it, the counters below unchanged; and no walk changes the list stack
    or any counter but the top one. *)
Theorem ordered_list_counters {lib : GoLib} :
  (forall inPre attr children st,
     walk inPre (MkNode ElementNode (str "ol") attr children) st =
     (st1 <- walkChildren (walk inPre) children
               {| buf := buf st; listStack := listStack st ++ [str "ol"];
                  olCounters := olCounters st ++ [1%Z] |} ;;
      Ok (ensureTwoNewlines
            {| buf := buf st1; listStack := listStack st;
               olCounters := olCounters st |}))) /\
  (forall inPre attr children b ls oc c,
     walk inPre (MkNode ElementNode (str "li") attr children)
       {| buf := b; listStack := ls ++ [str "ol"]; olCounters := oc ++ [c] |} =
     (st1 <- walkChildren (walk inPre) children
               {| buf := b ++ concat (repeat (str "  ") (length ls)) ++
                         FormatInt c ++ str ". ";
                  listStack := ls ++ [str "ol"];
                  olCounters := oc ++ [wrapInt (c + 1)] |} ;;
      Ok (WriteString nl st1))) /\
  (forall n inPre st st',
     walk inPre n st = Ok st' ->
     listStack st' = listStack st /\
     length (olCounters st') = length (olCounters st) /\
     removelast (olCounters st') = removelast (olCounters st)).
Proof.
  split; [intros; apply walk_ol|].
  split; [intros; apply walk_li_ordered|].
  intros n inPre st st' H. exact (walk_frame _ _ _ H).
Qed.

Lemma ordered_list_counters_witness :
  walk (lib := exampleLib []) false (el "li" [txt "x"; el "ol" [el "li" [txt "y"]]])
    {| buf := []; listStack := [str "ol"; str "ol"]; olCounters := [5; 7]%Z |}
  = Ok {| buf := str "  7. x    1. y" ++ nl ++ nl ++ nl;
          listStack := [str "ol"; str "ol"]; olCounters := [5; 8]%Z |} /\
  removelast [5; 8]%Z = removelast [5; 7]%Z.
Proof.
  split; [vm_compute; reflexivity|].
  apply (proj2 (proj2 (@ordered_list_counters (exampleLib [])))
           (el "li" [txt "x"; el "ol" [el "li" [txt "y"]]]) false
           {| buf := []; listStack := [str "ol"; str "ol"]; olCounters := [5; 7]%Z |}
           {| buf := str "  7. x    1. y" ++ nl ++ nl ++ nl;
              listStack := [str "ol"; str "ol"]; olCounters := [5; 8]%Z |}).
  vm_compute. reflexivity.
Defined.

(** Numbering restarts in a nested list and in the next list. *)
Example render_nested_lists :
  renderDocument (lib := exampleLib []) nestedDocument
  = Ok (lines_of ["1. a  1. x"; "  2. y"; ""; "2. b"; ""; "1. c"]%string).
Proof. vm_compute. reflexivity. Qed.

(** ** The tests of the repository, on the model *)

(** [TestHideQuotedPart_Behavior]. *)
Example hide_test_keep :
  hideQuotedPart (lines_of ["Thanks for your note."; "";
     "> On Tue, Alice <alice@example.com> wrote:"; "> Hello"; "> More"; "> End"; ""]%string) false
  = lines_of ["Thanks for your note."; ""; "<details>";
      "<summary>Show quoted email</summary>"; "";
      "> On Tue, Alice <alice@example.com> wrote:"; "> Hello"; "> More"; "> End"; "";
      "</details>"]%string.
Proof. vm_compute. reflexivity. Qed.

Example hide_test_remove :
  hideQuotedPart (lines_of ["Thanks for your note."; "";
     "> On Tue, Alice <alice@example.com> wrote:"; "> Hello"; "> More"; "> End"; ""]%string) true
  = lines_of ["Thanks for your note."; ""]%string.
Proof. vm_compute. reflexivity. Qed.

Example pats_ex :
  map (fun l => map (fun re => Regexp.MatchString re (str l)) pats)
    ["On Tue, Bob wrote:"; "**From:** a@b"; "sent: x"; "To: me"; "SUBJECT: x";
     "-----Original Message-----"; "begin forwarded message:"; "--"; "-- x"; "On wrote:";
     "From: nobody"; "hello"]%string
  = [ [true; false; false; false; false; false; false; false];
      [false; true; false; false; false; false; false; false];
      [false; false; true; false; false; false; false; false];
      [false; false; false; true; false; false; false; false];
      [false; false; false; false; true; false; false; false];
      [false; false; false; false; false; true; false; false];
      [false; false; false; false; false; false; true; false];
      [false; false; false; false; false; false; false; true];
      [false; false; false; false; false; false; false; false];
      [false; false; false; false; false; false; false; false];
      [false; false; false; false; false; false; false; false];
      [false; false; false; false; false; false; false; false] ].
Proof. vm_compute. reflexivity. Qed.

Example TrimSpace_ex :
  TrimSpace (str " " ++ [xc2; xa0] ++ str "a b" ++ [xe2; x80; x83] ++ nl) = str "a b".
Proof. reflexivity. Qed.

Example Split_ex : Split (str "a" ++ nl ++ nl ++ str "b") nl = [str "a"; []; str "b"].
Proof. reflexivity. Qed.

(** [TestHtmlToPlain], each input as the document [html.Parse] builds. *)
Example test_htmlToPlain :
  map (fun d => renderDocument (lib := exampleLib []) d)
    [ (* <p>Hello &amp; welcome</p> *)
      document [el "p" [txt "Hello & welcome"]];
      (* <h2>Title</h2><p>First para</p><p>Second para</p> *)
      document [el "h2" [txt "Title"]; el "p" [txt "First para"];
                el "p" [txt "Second para"]];
      (* This is <b>bold</b> and <i>italic</i> and <code>inline()</code> *)
      document [txt "This is "; el "b" [txt "bold"]; txt " and ";
                el "i" [txt "italic"]; txt " and "; el "code" [txt "inline()"]];
      (* See <a href="https://example.com">project</a> updates. *)
      document [txt "See ";
                elA "a" [("href", "https://example.com")]%string [txt "project"];
                txt " updates."];
      (* <p>Look: <img src="https://img.example/x.png" alt="logo"></p> *)
      document [el "p" [txt "Look: ";
                        elA "img" [("src", "https://img.example/x.png");
                                   ("alt", "logo")]%string []]];
      (* <p>A</p><div></div><p>B</p><p></p><p>C</p> *)
      blankDocument;
      (* Visit <a href="https://example.com">https://example.com</a> now. *)
      document [txt "Visit ";
                elA "a" [("href", "https://example.com")]%string
                    [txt "https://example.com"];
                txt " now."] ]
  = map (fun l => Ok (lines_of l))
    [ ["Hello & welcome"];
      ["## Title"; ""; "First para"; ""; "Second para"];
      ["This is **bold** and *italic* and `inline()`"];
      ["See project (https://example.com) updates."];
      ["Look: ![logo](https://img.example/x.png)"];
      ["A"; ""; "B"; ""; "C"];
      ["Visit https://example.com now."] ]%string.
Proof. vm_compute. reflexivity. Qed.

(** The list test of [TestHtmlToPlain]; the newlines between the tags are
    text nodes. *)
Example test_htmlToPlain_lists :
  renderDocument (lib := exampleLib [])
    (document [el "ul" [MkNode TextNode nl [] []; el "li" [txt "one"];
                        MkNode TextNode nl [] []; el "li" [txt "two"];
                        MkNode TextNode nl [] []];
               MkNode TextNode nl [] [];
               el "ol" [MkNode TextNode nl [] []; el "li" [txt "first"];
                        MkNode TextNode nl [] []; el "li" [txt "second"];
                        MkNode TextNode nl [] []]])
  = Ok (lines_of ["- one"; "- two"; ""; "1. first"; "2. second"]%string).
Proof. vm_compute. reflexivity. Qed.

(** [TestExtractBodyAsMarkdown_MultipartPrefersPlain]. *)
Example test_multipart_prefers_plain :
  extractBodyAsMarkdown (lib := exampleLib [plainPart; htmlPartA]) alternativeMessage
  = Ok (str "Plain body text").
Proof. vm_compute. reflexivity. Qed.

(** An ill-formed byte in a text node is written as U+FFFD. *)
Example collapseSpace_ex :
  collapseSpace false (str " caf" ++ [xc3; xa9; x09; x0a; xff] ++ str "A ")
  = str " caf" ++ [xc3; xa9] ++ str " " ++ [xef; xbf; xbd] ++ str "A".
Proof. vm_compute. reflexivity. Qed.
